(** * Enrichment-factor analysis (ef/ef_analysis.py)

    A shallow embedding of the enrichment pipeline: the dict-of-sets
    helpers, event pruning, the marginal sums E and T, the enrichment
    scorer, the contingency builder, the q-value correction and the
    report filter.

    Conventions.
    - Molecule, event and target identifiers are strings.
    - A Python [dict] is a [gmap]; [d.iteritems()] enumerates
      [map_to_list d].  A Python [set] is a [gset]; iterating it
      enumerates [elements].
    - Python integers are [Z]; [len] is [Z.of_nat (size _)].
    - Python floats are idealised as exact rationals [Q]: rounding is
      not modelled.
    - An uncaught exception is a [Raise] in the [result] monad. *)

From Stdlib Require Import ZArith QArith Lia Lqa.
From stdpp Require Import gmap strings list fin_maps fin_sets sorting pretty.

Local Open Scope Z_scope.

(** ** Exceptions *)

Inductive exn : Type :=
  | KeyError
  | AssertionError
  | ValueError
  | StopIteration.

Inductive result (A : Type) : Type :=
  | Ok (a : A)
  | Raise (e : exn).
Arguments Ok {A} a.
Arguments Raise {A} e.

#[global] Instance result_bind : MBind result := λ A B k r,
  match r with
  | Ok a => k a
  | Raise e => Raise e
  end.

(** [d[k]] on a plain dict. *)
Definition getitem `{Countable K} {V} (d : gmap K V) (k : K) : result V :=
  match d !! k with
  | Some v => Ok v
  | None => Raise KeyError
  end.

(** A [for] loop whose body may raise: the body threads the loop state. *)
Fixpoint for_each {A S} (body : A → S → result S) (l : list A) (s : S)
  : result S :=
  match l with
  | [] => Ok s
  | a :: l' => s' ← body a s; for_each body l' s'
  end.

(** [sum(f(x) for x in xs)]: Python adds from the left, starting at 0. *)
Definition py_sum {A} (f : A → Z) (xs : list A) : Z :=
  foldl (λ acc x, acc + f x) 0 xs.

(** ** Dict-of-sets helpers *)

Abbreviation setdict := (gmap string (gset string)).

(** [out_setdict[x].add(k)] on a [defaultdict(set)]. *)
Definition setdict_add (x k : string) (out : setdict) : setdict :=
  <[x := default ∅ (out !! x) ∪ {[k]}]> out.

Definition flip_setdict (in_dict : setdict) : setdict :=
  foldl (λ out '(k, v), foldl (λ out x, setdict_add x k out) out (elements v))
        ∅ (map_to_list in_dict).

Definition flatten_setdict (in_dict : setdict) : gset string :=
  foldl (λ out_set x, out_set ∪ x) ∅ (map_to_list in_dict).*2.

(** ** Association index *)

(** The reject count is only logged; [has_event] does not reach the result. *)
Definition prune_events (events_to_drugs : setdict)
    (has_event has_target : gset string) : setdict :=
  list_to_map
    ((λ '(event, drugs), (event, drugs ∩ has_target))
       <$> map_to_list events_to_drugs).

(** Every molecule listed by the first dict is listed by the second:
    [pruned ev tg] says that every event molecule has a target, and
    [pruned tg ev] that every target molecule has an event. *)
Definition pruned (d d' : setdict) : Prop :=
  map_Forall (λ _ drugs, drugs ⊆ flatten_setdict d') d.

#[global] Instance pruned_dec d d' : Decision (pruned d d').
Proof. unfold pruned. apply _. Defined.


(** ** Marginal sums *)

(** [len(d[drug])] on a [defaultdict(set)]: a missing key reads as the
    empty set.  (The read also stores the empty set under the key; the
    sizes compared by the assertion are taken before any such read, and an
    empty entry reads as before, so the store is not threaded.) *)
Definition degree (d : setdict) (drug : string) : Z :=
  Z.of_nat (size (default ∅ (d !! drug))).

Definition precompute_sums (events_to_drugs targets_to_drugs : setdict)
  : result (gmap string Z * gmap string Z) :=
  let drugs_to_targets := flip_setdict targets_to_drugs in
  let drugs_to_events := flip_setdict events_to_drugs in
  if decide (size drugs_to_events = size drugs_to_targets) then
    let E := foldl (λ E '(event, drugs),
                      <[event := py_sum (degree drugs_to_targets) (elements drugs)]> E)
                   ∅ (map_to_list events_to_drugs) in
    let T := foldl (λ T '(target, drugs),
                      <[target := py_sum (degree drugs_to_events) (elements drugs)]> T)
                   ∅ (map_to_list targets_to_drugs) in
    Ok (E, T)
  else Raise AssertionError.

(** ** Enrichment scorer *)

(** The loop state of [compute_efs]: the stored raw factors, the running
    triplet count, and the pairs reported by [logging.warn]. *)
Record scan : Type := mk_scan {
  scan_efs : gmap (string * string) Q;
  scan_P : Z;
  scan_log : list (string * string * Z * Z * Z)
}.

(** [float(a)/b] for integers: division by zero raises, and the bare
    [except] of the caller catches it. *)
Definition true_div (a b : Z) : option Q :=
  if decide (b = 0) then None else Some (inject_Z a / inject_Z b)%Q.

(** Body of the inner loop, for one target. *)
Definition compute_efs_target (T : gmap string Z) (min_pairs : Z)
    (event : string) (e_drugs : gset string) (ee : Z)
    (item : string * gset string) (st : scan) : result scan :=
  let '(target, t_drugs) := item in
  tt_ ← getitem T target;
  let pte := Z.of_nat (size (t_drugs ∩ e_drugs)) in
  let P := scan_P st + pte in
  if decide (pte < min_pairs) then Ok (mk_scan (scan_efs st) P (scan_log st))
  else
    match true_div pte (ee * tt_) with
    | None =>
        Ok (mk_scan (scan_efs st) P
              (scan_log st ++ [(event, target, pte, ee, tt_)]))
    | Some ef =>
        Ok (mk_scan (<[(target, event) := ef]> (scan_efs st)) P (scan_log st))
    end.

(** Body of the outer loop, for one event. *)
Definition compute_efs_event (E T : gmap string Z) (targets_to_drugs : setdict)
    (min_pairs : Z) (item : string * gset string) (st : scan) : result scan :=
  let '(event, e_drugs) := item in
  ee ← getitem E event;
  if decide (ee = 0) then Ok st
  else for_each (compute_efs_target T min_pairs event e_drugs ee)
                (map_to_list targets_to_drugs) st.

(** The double iteration, before the rescaling pass. *)
Definition compute_efs_scan (E T : gmap string Z)
    (events_to_drugs targets_to_drugs : setdict) (min_pairs : Z) : result scan :=
  for_each (compute_efs_event E T targets_to_drugs min_pairs)
           (map_to_list events_to_drugs) (mk_scan ∅ 0 []).

Definition compute_efs (E T : gmap string Z)
    (events_to_drugs targets_to_drugs : setdict)
    (min_pairs : Z) (ef_cutoff : Q) : result (gmap (string * string) Q) :=
  st ← compute_efs_scan E T events_to_drugs targets_to_drugs min_pairs;
  Ok ((λ ef, ef * inject_Z (scan_P st))%Q <$> scan_efs st).

(** ** Contingency builder *)

(** [np.array([[both, events], [targets, neither]])]. *)
Abbreviation table := ((Z * Z) * (Z * Z))%type.

(** [Counter.update(drugs)] and [Counter[x]]. *)
Definition count (c : gmap string Z) (x : string) : Z := default 0 (c !! x).

Definition counter_update (c : gmap string Z) (drugs : gset string)
  : gmap string Z :=
  foldl (λ c x, <[x := count c x + 1]> c) c (elements drugs).

Definition target_counts (targets_to_drugs : setdict) : gmap string Z :=
  foldl counter_update ∅ (map_to_list targets_to_drugs).*2.

Definition num_pairs (targets_to_drugs : setdict) : Z :=
  py_sum id (map_to_list (target_counts targets_to_drugs)).*2.

(** The table of one pair.  [events_to_drugs] is a plain dict after
    pruning; [targets_to_drugs] is the [defaultdict(set)] of
    [read_results], where a missing target reads as the empty set. *)
Definition contingency_table (events_to_drugs targets_to_drugs : setdict)
    (key : string * string) : result table :=
  let '(target, event) := key in
  e_drugs ← getitem events_to_drugs event;
  let t_drugs := default ∅ (targets_to_drugs !! target) in
  let tc := count (target_counts targets_to_drugs) in
  let both := py_sum tc (elements (e_drugs ∩ t_drugs)) in
  let events := py_sum tc (elements e_drugs) - both in
  let targets := py_sum tc (elements t_drugs) - both in
  let neither := num_pairs targets_to_drugs - both - events - targets in
  Ok ((both, events), (targets, neither)).

Definition map_contingency_tables (efs : gmap (string * string) Q)
    (events_to_drugs targets_to_drugs : setdict)
  : result (gmap (string * string) table) :=
  for_each (λ key contingency_tables,
              tbl ← contingency_table events_to_drugs targets_to_drugs key;
              Ok (<[key := tbl]> contingency_tables))
           (map_to_list efs).*1 ∅.

(** ** Significance corrector *)

#[global] Instance Qle_dec : RelDecision Qle :=
  λ x y, decide (Qnum x * QDen y ≤ Qnum y * QDen x).
#[global] Instance Qlt_dec : RelDecision Qlt :=
  λ x y, decide (Qnum x * QDen y < Qnum y * QDen x).

(** [np.maximum] on two numbers. *)
Definition Qmaximum (x y : Q) : Q := if decide (x <= y)%Q then y else x.

Fixpoint accumulate_from (m : Q) (l : list Q) : list Q :=
  match l with
  | [] => []
  | x :: l' => let m' := Qmaximum m x in m' :: accumulate_from m' l'
  end.

(** [np.maximum.accumulate]: the running maximum. *)
Definition maximum_accumulate (l : list Q) : list Q :=
  match l with
  | [] => []
  | x :: l' => x :: accumulate_from x l'
  end.

(** The order in which the p-values are ranked. *)
Definition by_pvalue : relation (nat * Q) := λ a b, (a.2 <= b.2)%Q.

#[global] Instance by_pvalue_dec : RelDecision by_pvalue :=
  λ a b, decide (a.2 <= b.2)%Q.

(** Holm's adjustment of p-values that are already in ascending order:
    the k-th smallest (from 0) is scaled by [ntests - k], the running
    maximum makes the result monotone, and values above 1 are set to 1. *)
Definition holm_sorted (pvals : list Q) : list Q :=
  let ntests := length pvals in
  let pvals_corrected_raw :=
    imap (λ k p, p * inject_Z (Z.of_nat (ntests - k)))%Q pvals in
  (λ q, if decide (1 < q)%Q then 1%Q else q)
    <$> maximum_accumulate pvals_corrected_raw.

(** Modelled from the spec: [multipletests(p_vals, alpha=0.05,
    method='holm')] belongs to the statsmodels library, which the
    repository only calls.  The spec asks for Holm's step-down procedure
    across all p-values jointly, ordered by ascending p-value, each
    adjusted value monotonically non-decreasing in rank, and returns the
    adjusted p-values (the alpha only sets a reject flag, which
    [compute_q_values] drops).  The p-values are ranked, adjusted by
    [holm_sorted], and written back to their original positions. *)
Definition multipletests_holm (p_vals : list Q) : list Q :=
  let ranked := merge_sort by_pvalue (zip (seq 0 (length p_vals)) p_vals) in
  let pvals_corrected := holm_sorted ranked.*2 in
  foldl (λ out '(i, q), <[i := q]> out)
        (replicate (length p_vals) 0%Q) (zip ranked.*1 pvals_corrected).

(** Python truth value of the optional count: [None] and [0] are false. *)
Definition truthy (bonferroni_count : option Z) : bool :=
  match bonferroni_count with
  | Some n => bool_decide (n ≠ 0)
  | None => false
  end.

Section statistics.

(** The p-value returned by [scipy.stats.chi2_contingency], which raises
    on a table it rejects; and the rendering ["%.5g" % x]. *)
Variable chi2_contingency : table → result Q.
Variable fmt5g : Q → string.

Definition compute_q_values (contingencies : gmap (string * string) table)
    (bonferroni_count : option Z)
  : result (list (string * string) * list Q * list Q) :=
  '(target_event_pairs, p_vals) ←
    for_each (λ '(key, tbl) '(pairs, ps),
                pvalue ← chi2_contingency tbl;
                Ok (pairs ++ [key], ps ++ [pvalue]))
             (map_to_list contingencies) ([], []);
  let q_vals :=
    if truthy bonferroni_count
    then (λ pval, pval * inject_Z (default 0%Z bonferroni_count))%Q <$> p_vals
    else multipletests_holm p_vals in
  Ok (target_event_pairs, p_vals, q_vals).

(** ** Report filter *)

Definition header_row : list string :=
  ["uniprot_id"; "targ_name"; "event"; "ef"; "p-value"; "q-value"].

(** Body of the output loop of [ef_analysis]: one zipped item, the rows
    yielded so far. *)
Definition report_row (efs : gmap (string * string) Q)
    (targets : gmap string (string * string)) (ef_cutoff qvalue_cutoff : Q)
    (item : string * string * Q * Q) (out : list (list string))
  : result (list (list string)) :=
  let '(te_pair, p_val, q_val) := item in
  let '(target, event) := te_pair in
  ef ← getitem efs te_pair;
  if decide (ef_cutoff < ef ∧ q_val < qvalue_cutoff)%Q then
    info ← getitem targets target;
    Ok (out ++ [[target; info.1; event; fmt5g ef; fmt5g p_val; fmt5g q_val]])
  else Ok out.

Definition report (efs : gmap (string * string) Q)
    (targets : gmap string (string * string)) (ef_cutoff qvalue_cutoff : Q)
    (target_event_pairs : list (string * string)) (p_vals q_vals : list Q)
  : result (list (list string)) :=
  for_each (report_row efs targets ef_cutoff qvalue_cutoff)
           (zip (zip target_event_pairs p_vals) q_vals) [header_row].

(** ** The pipeline *)

(** [cid, eid = row[:2]]. *)
Definition read_events (events_reader : list (list string))
  : result (setdict * gset string) :=
  events_to_drugs ←
    for_each (λ row events_to_drugs,
                match row with
                | cid :: eid :: _ => Ok (setdict_add eid cid events_to_drugs)
                | _ => Raise ValueError
                end)
             events_reader ∅;
  Ok (events_to_drugs, flatten_setdict events_to_drugs).

Definition read_results (results_reader : list (list string))
    (has_event : gset string)
  : result (setdict * gset string * gmap string (string * string)) :=
  match results_reader with
  | [] => Raise StopIteration
  | header :: rows =>
      '(targets, targets_to_drugs) ←
        for_each (λ row '(targets, targets_to_drugs),
                    match row with
                    | [cid; smiles; tid; affinity; pvalue; maxtc; name; desc] =>
                        if decide (cid ∉ has_event)
                        then Ok (targets, targets_to_drugs)
                        else
                          Ok (match targets !! tid with
                              | None => <[tid := (name, desc)]> targets
                              | Some _ => targets
                              end,
                              setdict_add tid cid targets_to_drugs)
                    | _ => Raise ValueError
                    end)
                 rows (∅, ∅);
      Ok (targets_to_drugs, flatten_setdict targets_to_drugs, targets)
  end.

Definition ef_analysis (events_reader results_reader : list (list string))
    (min_pairs : Z) (ef_cutoff qvalue_cutoff : Q) (bonferroni : bool)
  : result (list (list string)) :=
  '(events_to_drugs, has_event) ← read_events events_reader;
  '(targets_to_drugs, has_target, targets) ←
    read_results results_reader has_event;
  let events_to_drugs := prune_events events_to_drugs has_event has_target in
  '(E, T) ← precompute_sums events_to_drugs targets_to_drugs;
  efs ← compute_efs E T events_to_drugs targets_to_drugs min_pairs ef_cutoff;
  let '(bonferroni_count, efs) :=
    if bonferroni
    then (Some (Z.of_nat (size efs)),
          filter (λ kv, ef_cutoff <= kv.2)%Q efs)
    else (None, efs) in
  contingencies ← map_contingency_tables efs events_to_drugs targets_to_drugs;
  '(target_event_pairs, p_vals, q_vals) ←
    compute_q_values contingencies bonferroni_count;
  if decide (length target_event_pairs = size efs)
  then report efs targets ef_cutoff qvalue_cutoff target_event_pairs p_vals q_vals
  else Raise AssertionError.

End statistics.

(** ** Facts on the helpers *)

Section helpers.

Lemma foldl_union_elem (l : list (gset string)) (acc : gset string) x :
  x ∈ foldl (λ out_set y, out_set ∪ y) acc l ↔ x ∈ acc ∨ ∃ y, y ∈ l ∧ x ∈ y.
Proof.
  revert acc. induction l as [|y l IH]; intros acc; simpl.
  - split; [auto|]. intros [?|(y & Hy & _)]; [done|]. by apply elem_of_nil in Hy.
  - rewrite IH, elem_of_union. split.
    + intros [[?|?]|(z & Hz & Hx)]; eauto.
      * right. exists y. split; [apply list_elem_of_here|done].
      * right. exists z. split; [by apply list_elem_of_further|done].
    + intros [?|(z & Hz & Hx)]; [auto|].
      apply elem_of_cons in Hz as [->|Hz]; eauto.
Qed.

Lemma elem_of_flatten_setdict (d : setdict) x :
  x ∈ flatten_setdict d ↔ ∃ k v, d !! k = Some v ∧ x ∈ v.
Proof.
  unfold flatten_setdict. rewrite foldl_union_elem. split.
  - intros [H|(v & Hv & Hx)]; [set_solver|].
    apply list_elem_of_fmap in Hv as ([k v'] & -> & Hkv).
    apply elem_of_map_to_list in Hkv. eauto.
  - intros (k & v & Hkv & Hx). right. exists v. split; [|done].
    apply list_elem_of_fmap. exists (k, v). split; [done|].
    by apply elem_of_map_to_list.
Qed.

Lemma prune_events_fmap ev he ht :
  prune_events ev he ht = (λ drugs, drugs ∩ ht) <$> ev.
Proof.
  unfold prune_events.
  rewrite <- (list_to_map_to_list ev) at 2. rewrite <- list_to_map_fmap.
  f_equal. apply list_fmap_ext. by intros i [event drugs] _.
Qed.

(** *** Sums *)

Lemma foldl_add_init {A} (f : A → Z) (l : list A) (a : Z) :
  foldl (λ acc x, acc + f x) a l = a + py_sum f l.
Proof.
  unfold py_sum. revert a. induction l as [|x l IH]; intros a; simpl; [lia|].
  rewrite (IH (a + f x)), (IH (0 + f x)). lia.
Qed.

Lemma py_sum_nil {A} (f : A → Z) : py_sum f [] = 0.
Proof. done. Qed.

Lemma py_sum_cons {A} (f : A → Z) x l : py_sum f (x :: l) = f x + py_sum f l.
Proof. unfold py_sum at 1. simpl. rewrite foldl_add_init. lia. Qed.

Lemma py_sum_app {A} (f : A → Z) l k :
  py_sum f (l ++ k) = py_sum f l + py_sum f k.
Proof.
  induction l as [|x l IH]; simpl; [by rewrite py_sum_nil|].
  rewrite !py_sum_cons, IH. lia.
Qed.

Lemma py_sum_perm {A} (f : A → Z) l k : l ≡ₚ k → py_sum f l = py_sum f k.
Proof.
  induction 1 as [|x l k _ IH|x y l|l k m _ IH1 _ IH2];
    rewrite ?py_sum_cons; lia.
Qed.

Lemma py_sum_nonneg {A} (f : A → Z) l :
  (∀ x, x ∈ l → 0 ≤ f x) → 0 ≤ py_sum f l.
Proof.
  induction l as [|x l IH]; intros Hf; [by rewrite py_sum_nil|].
  rewrite py_sum_cons.
  assert (0 ≤ f x) by (apply Hf, list_elem_of_here).
  assert (0 ≤ py_sum f l); [|lia].
  apply IH. intros y Hy. by apply Hf, list_elem_of_further.
Qed.

Lemma py_sum_submseteq {A} (f : A → Z) l k :
  (∀ x, x ∈ k → 0 ≤ f x) → l ⊆+ k → py_sum f l ≤ py_sum f k.
Proof.
  intros Hf Hsub. apply submseteq_Permutation in Hsub as [r Hr].
  rewrite (py_sum_perm f _ _ Hr), py_sum_app.
  assert (0 ≤ py_sum f r); [|lia].
  apply py_sum_nonneg. intros x Hx. apply Hf. rewrite Hr.
  apply elem_of_app. by right.
Qed.

Lemma py_sum_ext {A} (f g : A → Z) l :
  (∀ x, x ∈ l → f x = g x) → py_sum f l = py_sum g l.
Proof.
  induction l as [|x l IH]; intros Hfg; [done|].
  rewrite !py_sum_cons, IH, (Hfg x); [done|apply list_elem_of_here|].
  intros y Hy. by apply Hfg, list_elem_of_further.
Qed.

Lemma py_sum_pos_nil {A} (f : A → Z) l :
  (∀ x, x ∈ l → 0 < f x) → py_sum f l = 0 → l = [].
Proof.
  destruct l as [|x l]; [done|]. intros Hf. rewrite py_sum_cons.
  assert (0 < f x) by (apply Hf, list_elem_of_here).
  assert (0 ≤ py_sum f l); [|lia].
  apply py_sum_nonneg. intros y Hy.
  apply Z.lt_le_incl, Hf. by apply list_elem_of_further.
Qed.

(** *** Dicts built by a loop of stores *)

Lemma foldl_store_lookup {A B} (f : A → B) (l : list (string * A))
    (acc : gmap string B) k :
  NoDup l.*1 →
  foldl (λ acc '(k, v), <[k := f v]> acc) acc l !! k
  = match list_find (λ kv, kv.1 = k) l with
    | Some (_, (_, v)) => Some (f v)
    | None => acc !! k
    end.
Proof.
  revert acc. induction l as [|[k0 v0] l IH]; intros acc Hnd; [done|].
  apply NoDup_cons in Hnd as [Hk0 Hnd]. simpl.
  rewrite IH by done. case_decide as Hk; simpl in Hk.
  - subst k0. destruct (list_find _ l) as [[i [k' v']]|] eqn:Hfind; simpl.
    + apply list_find_Some in Hfind as (Hi & Hk' & _). simpl in Hk'. subst k'.
      destruct Hk0. apply list_elem_of_fmap. exists (k, v'). split; [done|].
      by eapply list_elem_of_lookup_2.
    + by rewrite lookup_insert_eq.
  - destruct (list_find _ l) as [[i [k' v']]|]; simpl; [done|].
    by rewrite lookup_insert_ne.
Qed.

Lemma foldl_store_fmap {A B} (f : A → B) (m : gmap string A) :
  foldl (λ acc '(k, v), <[k := f v]> acc) ∅ (map_to_list m) = f <$> m.
Proof.
  apply map_eq. intros k.
  rewrite foldl_store_lookup by apply NoDup_fst_map_to_list.
  rewrite lookup_fmap.
  destruct (list_find _ _) as [[i [k' v]]|] eqn:Hfind.
  - apply list_find_Some in Hfind as (Hi & Hk' & _). simpl in Hk'. subst k'.
    apply list_elem_of_lookup_2, elem_of_map_to_list in Hi. by rewrite Hi.
  - rewrite lookup_empty. destruct (m !! k) as [v|] eqn:Hm; [|done].
    apply elem_of_map_to_list in Hm.
    eapply list_find_None, Forall_forall in Hfind; [|done]. by destruct Hfind.
Qed.

(** *** [flip_setdict] *)

(** The entry of [x] after [out[x].add(k)] for every [x] of [xs]. *)
Lemma foldl_setdict_add_lookup (xs : list string) k (out : setdict) x :
  foldl (λ out x, setdict_add x k out) out xs !! x
  = if decide (x ∈ xs) then Some (default ∅ (out !! x) ∪ {[k]}) else out !! x.
Proof.
  revert out. induction xs as [|y xs IH]; intros out; simpl.
  - destruct (decide (x ∈ [])) as [H|H]; [by apply elem_of_nil in H|done].
  - rewrite IH. unfold setdict_add.
    destruct (decide (x = y)) as [->|Hne].
    + rewrite lookup_insert_eq. simpl.
      rewrite (decide_True _ _ (list_elem_of_here y xs)).
      destruct (decide (y ∈ xs)); f_equal; set_solver.
    + rewrite lookup_insert_ne by done.
      destruct (decide (x ∈ xs)) as [H1|H1];
        destruct (decide (x ∈ y :: xs)) as [H2|H2]; try done.
      * destruct H2. by apply list_elem_of_further.
      * apply elem_of_cons in H2 as [?|?]; done.
Qed.

Definition flip_loop (out : setdict) (l : list (string * gset string))
  : setdict :=
  foldl (λ out '(k, v), foldl (λ out x, setdict_add x k out) out (elements v))
        out l.

Lemma flip_loop_is_Some l out x :
  is_Some (flip_loop out l !! x)
  ↔ is_Some (out !! x) ∨ ∃ k v, (k, v) ∈ l ∧ x ∈ v.
Proof.
  revert out. induction l as [|[k v] l IH]; intros out; simpl.
  - split; [auto|]. intros [?|(k & v & H & _)]; [done|].
    by apply elem_of_nil in H.
  - rewrite IH, foldl_setdict_add_lookup. split.
    + intros [H|(k' & v' & H & Hx)].
      * case_decide as Hin; [|by left].
        right. exists k, v. split; [apply list_elem_of_here|].
        by apply elem_of_elements.
      * right. exists k', v'. split; [by apply list_elem_of_further|done].
    + intros [H|(k' & v' & H & Hx)].
      * left. case_decide; [done|done].
      * apply elem_of_cons in H as [[= -> ->]|H]; [|by eauto].
        left. rewrite decide_True by by apply elem_of_elements. done.
Qed.

Lemma flip_loop_elem l out x k :
  k ∈ default ∅ (flip_loop out l !! x)
  ↔ k ∈ default ∅ (out !! x) ∨ ∃ v, (k, v) ∈ l ∧ x ∈ v.
Proof.
  revert out. induction l as [|[k0 v0] l IH]; intros out; simpl.
  - split; [auto|]. intros [?|(v & H & _)]; [done|].
    by apply elem_of_nil in H.
  - rewrite IH, foldl_setdict_add_lookup. split.
    + intros [H|(v & H & Hx)].
      * case_decide as Hin; [|by left]. simpl in H.
        apply elem_of_union in H as [H|H]; [by left|].
        apply elem_of_singleton in H as ->.
        right. exists v0. split; [apply list_elem_of_here|].
        by apply elem_of_elements.
      * right. exists v. split; [by apply list_elem_of_further|done].
    + intros [H|(v & H & Hx)].
      * left. case_decide; [simpl; set_solver|done].
      * apply elem_of_cons in H as [[= -> ->]|H]; [|by eauto].
        left. rewrite decide_True by by apply elem_of_elements.
        simpl. set_solver.
Qed.

Lemma flip_setdict_is_Some (d : setdict) x :
  is_Some (flip_setdict d !! x) ↔ ∃ k v, d !! k = Some v ∧ x ∈ v.
Proof.
  change (flip_setdict d) with (flip_loop ∅ (map_to_list d)).
  rewrite flip_loop_is_Some, lookup_empty. split.
  - intros [[? [=]]|(k & v & H & Hx)]. apply elem_of_map_to_list in H. eauto.
  - intros (k & v & H & Hx). right. exists k, v.
    by rewrite elem_of_map_to_list.
Qed.

Lemma flip_setdict_elem (d : setdict) x k :
  k ∈ default ∅ (flip_setdict d !! x) ↔ ∃ v, d !! k = Some v ∧ x ∈ v.
Proof.
  change (flip_setdict d) with (flip_loop ∅ (map_to_list d)).
  rewrite flip_loop_elem, lookup_empty. split.
  - intros [H|(v & H & Hx)]; [set_solver|].
    apply elem_of_map_to_list in H. eauto.
  - intros (v & H & Hx). right. exists v. by rewrite elem_of_map_to_list.
Qed.

Lemma dom_flip_setdict (d : setdict) : dom (flip_setdict d) = flatten_setdict d.
Proof.
  apply set_eq. intros x.
  by rewrite elem_of_dom, flip_setdict_is_Some, elem_of_flatten_setdict.
Qed.

Lemma size_flip_setdict (d : setdict) :
  size (flip_setdict d) = size (flatten_setdict d).
Proof. by rewrite <- dom_flip_setdict, size_dom. Qed.

Lemma degree_nonneg (d : setdict) x : 0 ≤ degree d x.
Proof. unfold degree. lia. Qed.

(** A molecule listed by some entry of [d] has positive degree in the
    flipped dict. *)
Lemma degree_flip_pos (d : setdict) k v x :
  d !! k = Some v → x ∈ v → 0 < degree (flip_setdict d) x.
Proof.
  intros Hk Hx. unfold degree.
  assert (k ∈ default ∅ (flip_setdict d !! x)) as Hin
    by (apply flip_setdict_elem; eauto).
  assert (size (default ∅ (flip_setdict d !! x)) ≠ 0%nat); [|lia].
  intros Hz. apply size_empty_inv in Hz. set_solver.
Qed.

Lemma degree_flip_zero (d : setdict) x :
  x ∉ flatten_setdict d → degree (flip_setdict d) x = 0.
Proof.
  intros Hx. unfold degree.
  rewrite <- dom_flip_setdict in Hx. apply not_elem_of_dom in Hx.
  by rewrite Hx.
Qed.

End helpers.


(** ** Pruning *)

Lemma prune_events_lookup ev he ht event :
  prune_events ev he ht !! event = (λ drugs, drugs ∩ ht) <$> ev !! event.
Proof. by rewrite prune_events_fmap, lookup_fmap. Qed.

Lemma pruned_spec (d d' : setdict) :
  pruned d d'
  ↔ ∀ k drugs x, d !! k = Some drugs → x ∈ drugs →
      ∃ k' drugs', d' !! k' = Some drugs' ∧ x ∈ drugs'.
Proof.
  unfold pruned. rewrite map_Forall_lookup. split.
  - intros H k drugs x Hk Hx. apply elem_of_flatten_setdict. by eapply H.
  - intros H k drugs Hk x Hx. apply elem_of_flatten_setdict. by eapply H.
Qed.

Lemma prune_events_pruned ev he tg :
  pruned (prune_events ev he (flatten_setdict tg)) tg.
Proof.
  apply map_Forall_lookup. intros event drugs. rewrite prune_events_lookup.
  destruct (ev !! event) as [drugs0|]; [|done]. intros [= <-]. set_solver.
Qed.

(** C9: [prune_events] keeps every event key of its input, mapping each
    event to the intersection of its molecules with [has_target], so an
    event none of whose molecules has a target stays in the dict with the
    empty set; and when [has_target] is the flattened target dict, every
    molecule left in an event belongs to the molecule set of some target. *)
Theorem prune_events_keeps_keys_and_prunes (ev tg : setdict) (he : gset string) :
  let pruned_events := prune_events ev he (flatten_setdict tg) in
  dom pruned_events = dom ev
  ∧ (∀ event drugs, ev !! event = Some drugs →
       pruned_events !! event = Some (drugs ∩ flatten_setdict tg))
  ∧ (∀ event drugs, ev !! event = Some drugs →
       drugs ## flatten_setdict tg → pruned_events !! event = Some ∅)
  ∧ (∀ event drugs x, pruned_events !! event = Some drugs → x ∈ drugs →
       ∃ target t_drugs, tg !! target = Some t_drugs ∧ x ∈ t_drugs).
Proof.
  simpl. split_and!.
  - by rewrite prune_events_fmap, dom_fmap_L.
  - intros event drugs H. by rewrite prune_events_lookup, H.
  - intros event drugs H Hdisj. rewrite prune_events_lookup, H. simpl.
    f_equal. set_solver.
  - apply pruned_spec, prune_events_pruned.
Qed.

(** ** Marginal sums *)

Lemma precompute_sums_unfold ev tg :
  precompute_sums ev tg
  = if decide (size (flip_setdict ev) = size (flip_setdict tg))
    then Ok ((λ drugs, py_sum (degree (flip_setdict tg)) (elements drugs)) <$> ev,
             (λ drugs, py_sum (degree (flip_setdict ev)) (elements drugs)) <$> tg)
    else Raise AssertionError.
Proof.
  unfold precompute_sums. case_decide; [|done].
  by rewrite !foldl_store_fmap.
Qed.

Lemma pruned_flatten_subseteq ev tg :
  pruned ev tg → flatten_setdict ev ⊆ flatten_setdict tg.
Proof.
  rewrite pruned_spec. intros Hpr x. rewrite !elem_of_flatten_setdict.
  intros (event & drugs & Hev & Hx). by eapply Hpr.
Qed.

Definition ev_m1 : setdict := {["e" := {["m1"]}]}.
Definition tg_m2 : setdict := {["t" := {["m2"]}]}.
Definition tg_m12 : setdict := {["t" := {["m1"; "m2"]}]}.

(** C3, as stated, fails: the assertion compares the two lengths only.
    With one event molecule and one different target molecule the key sets
    of the flipped dicts differ, and the sums are returned. *)
Lemma precompute_sums_returns_on_different_keys :
  dom (flip_setdict ev_m1) ≠ dom (flip_setdict tg_m2)
  ∧ precompute_sums ev_m1 tg_m2 = Ok ({["e" := 0]}, {["t" := 0]}).
Proof.
  split.
  - intros H.
    assert (bool_decide ("m1" ∈ dom (flip_setdict ev_m1))
            = bool_decide ("m1" ∈ dom (flip_setdict tg_m2))) as Hb
      by (by rewrite H).
    vm_compute in Hb. discriminate.
  - by vm_compute.
Qed.

(** C3 (amended): [precompute_sums] raises [AssertionError] exactly when
    the two flipped dicts have different numbers of keys, and returns E
    and T exactly when the numbers agree; on a pruned event dict, where
    every event molecule has a target, the numbers agree exactly when the
    key sets are identical. *)
Theorem precompute_sums_asserts_equal_sizes (ev tg : setdict) :
  (precompute_sums ev tg = Raise AssertionError
   ↔ size (dom (flip_setdict ev)) ≠ size (dom (flip_setdict tg)))
  ∧ ((∃ E T, precompute_sums ev tg = Ok (E, T))
     ↔ size (dom (flip_setdict ev)) = size (dom (flip_setdict tg)))
  ∧ (pruned ev tg →
     (size (dom (flip_setdict ev)) = size (dom (flip_setdict tg))
      ↔ dom (flip_setdict ev) = dom (flip_setdict tg))).
Proof.
  rewrite precompute_sums_unfold, !size_dom. split_and!.
  - case_decide; split; [done|done|done|done].
  - case_decide; split; try done; [eauto|]. by intros (? & ? & ?).
  - intros Hpr. rewrite <- !size_dom, !dom_flip_setdict.
    split; [|by intros ->]. intros Hsz.
    apply set_subseteq_size_eq; [by apply pruned_flatten_subseteq|lia].
Qed.

Lemma precompute_sums_asserts_equal_sizes_witness :
  pruned ev_m1 tg_m12
  ∧ (size (dom (flip_setdict ev_m1)) = size (dom (flip_setdict tg_m12))
     ↔ dom (flip_setdict ev_m1) = dom (flip_setdict tg_m12)).
Proof.
  assert (pruned ev_m1 tg_m12) as Hpr
    by (apply (bool_decide_unpack _); by vm_compute).
  split; [done|].
  by apply (proj2 (proj2 (precompute_sums_asserts_equal_sizes ev_m1 tg_m12))).
Defined.

(** ** Enrichment scorer *)

(** C8: [compute_efs] never reads [ef_cutoff]: two calls that differ only
    in it return the same result, be it a dict or an exception. *)
Theorem compute_efs_ignores_ef_cutoff (E T : gmap string Z) (ev tg : setdict)
    (min_pairs : Z) (ef_cutoff ef_cutoff' : Q) :
  compute_efs E T ev tg min_pairs ef_cutoff
  = compute_efs E T ev tg min_pairs ef_cutoff'.
Proof. reflexivity. Qed.

(** *** Loops *)

Lemma bind_Ok {A B} (r : result A) (k : A → result B) b :
  r ≫= k = Ok b ↔ ∃ a, r = Ok a ∧ k a = Ok b.
Proof.
  destruct r as [a|e]; simpl; split.
  - eauto.
  - by intros (? & [= <-] & ?).
  - done.
  - by intros (? & [=] & _).
Qed.

Lemma for_each_inv_gen {A S} (I : list A → S → Prop)
    (body : A → S → result S) (l : list A) :
  ∀ done s s',
    (∀ done a s1 s2, a ∈ l → I done s1 → body a s1 = Ok s2 → I (done ++ [a]) s2) →
    I done s → for_each body l s = Ok s' → I (done ++ l) s'.
Proof.
  induction l as [|a l IH]; intros done s s' Hstep Hinit Hrun; simpl in *.
  - injection Hrun as <-. by rewrite app_nil_r.
  - apply bind_Ok in Hrun as (s1 & Hbody & Hrun).
    rewrite (cons_middle a done l), app_assoc. eapply IH; [| |done].
    + intros done' a' s2 s3 Ha'. apply Hstep. by apply list_elem_of_further.
    + eapply Hstep; [apply list_elem_of_here|done|done].
Qed.

(** Invariant rule for a loop: the invariant speaks of the items already
    processed. *)
Lemma for_each_inv {A S} (I : list A → S → Prop)
    (body : A → S → result S) (l : list A) s s' :
  I [] s →
  (∀ done a s1 s2, a ∈ l → I done s1 → body a s1 = Ok s2 → I (done ++ [a]) s2) →
  for_each body l s = Ok s' → I l s'.
Proof. intros Hinit Hstep Hrun. by apply (for_each_inv_gen I body l [] s s'). Qed.

(** A loop whose body never raises runs to completion. *)
Lemma for_each_total {A S} (body : A → S → result S) (l : list A) s :
  (∀ a s, a ∈ l → ∃ s', body a s = Ok s') → ∃ s', for_each body l s = Ok s'.
Proof.
  revert s. induction l as [|a l IH]; intros s Hbody; simpl; [by eauto|].
  destruct (Hbody a s) as [s1 ->]; [apply list_elem_of_here|]. simpl.
  apply IH. intros a' s2 Ha'. apply Hbody. by apply list_elem_of_further.
Qed.

Lemma union_None_l {A} (o : option A) : None ∪ o = o.
Proof. by destruct o. Qed.

Lemma getitem_Ok `{Countable K} {V} (d : gmap K V) k v :
  getitem d k = Ok v ↔ d !! k = Some v.
Proof. unfold getitem. destruct (d !! k); split; congruence. Qed.

(** *** What the scan stores *)

(** The number of molecules an event and a target have in common. *)
Definition common (t_drugs e_drugs : gset string) : Z :=
  Z.of_nat (size (t_drugs ∩ e_drugs)).

(** The raw factor kept for a pair that reaches the threshold test. *)
Definition stored_ef (min_pairs pte ee tt_ : Z) : option Q :=
  if decide (pte < min_pairs) then None else true_div pte (ee * tt_).

(** The raw factor of a pair of identifiers, when one is stored. *)
Definition ef_raw (E T : gmap string Z) (ev tg : setdict) (min_pairs : Z)
    (target event : string) : option Q :=
  e_drugs ← ev !! event;
  t_drugs ← tg !! target;
  ee ← E !! event;
  tt_ ← T !! target;
  if decide (ee = 0) then None
  else stored_ef min_pairs (common t_drugs e_drugs) ee tt_.

(** The pair is reported by [logging.warn]. *)
Definition warned (E T : gmap string Z) (ev tg : setdict) (min_pairs : Z)
    (w : string * string * Z * Z * Z) : Prop :=
  ∃ event target e_drugs t_drugs ee tt_,
    ev !! event = Some e_drugs ∧ tg !! target = Some t_drugs
    ∧ E !! event = Some ee ∧ T !! target = Some tt_
    ∧ ee ≠ 0 ∧ min_pairs ≤ common t_drugs e_drugs ∧ ee * tt_ = 0
    ∧ w = (event, target, common t_drugs e_drugs, ee, tt_).

(** The triplets through one event, and through all events. *)
Definition event_triplets (tg : setdict) (e_drugs : gset string) : Z :=
  py_sum (λ item, common item.2 e_drugs) (map_to_list tg).

Definition all_triplets (ev tg : setdict) : Z :=
  py_sum (λ item, event_triplets tg item.2) (map_to_list ev).

Section scan_facts.

Variables (E T : gmap string Z) (ev tg : setdict) (min_pairs : Z).

Lemma compute_efs_target_Ok event e_drugs ee target t_drugs st st' :
  compute_efs_target T min_pairs event e_drugs ee (target, t_drugs) st = Ok st' →
  ∃ tt_, T !! target = Some tt_
    ∧ scan_P st' = scan_P st + common t_drugs e_drugs
    ∧ scan_efs st'
      = match stored_ef min_pairs (common t_drugs e_drugs) ee tt_ with
        | Some ef => <[(target, event) := ef]> (scan_efs st)
        | None => scan_efs st
        end
    ∧ scan_log st'
      = scan_log st
        ++ (if decide (min_pairs ≤ common t_drugs e_drugs ∧ ee * tt_ = 0)
            then [(event, target, common t_drugs e_drugs, ee, tt_)] else []).
Proof.
  unfold compute_efs_target. intros Hrun.
  apply bind_Ok in Hrun as (tt_ & Htt & Hrun). apply getitem_Ok in Htt.
  exists tt_. split; [done|]. unfold stored_ef, true_div, common in *.
  repeat case_decide; simplify_eq/=; rewrite ?app_nil_r; try done; lia.
Qed.

Lemma compute_efs_target_total event e_drugs ee target t_drugs st :
  is_Some (T !! target) →
  ∃ st', compute_efs_target T min_pairs event e_drugs ee (target, t_drugs) st
         = Ok st'.
Proof.
  intros [tt_ Htt]. unfold compute_efs_target, getitem. rewrite Htt. simpl.
  case_decide; [by eauto|]. destruct (true_div _ _); by eauto.
Qed.

(** The state after the inner loop over a list of targets of [tg]. *)
Definition inner_inv (event : string) (e_drugs : gset string) (ee : Z)
    (st0 : scan) (done : list (string * gset string)) (st : scan) : Prop :=
  scan_P st = scan_P st0 + py_sum (λ item, common item.2 e_drugs) done
  ∧ (∀ target e,
       scan_efs st !! (target, e)
       = (if decide (e = event ∧ target ∈ done.*1)
          then ef_raw E T ev tg min_pairs target event else None)
         ∪ scan_efs st0 !! (target, e))
  ∧ (∀ w, w ∈ scan_log st ↔
       w ∈ scan_log st0
       ∨ ∃ target t_drugs tt_,
           (target, t_drugs) ∈ done ∧ T !! target = Some tt_
           ∧ min_pairs ≤ common t_drugs e_drugs ∧ ee * tt_ = 0
           ∧ w = (event, target, common t_drugs e_drugs, ee, tt_)).

Lemma inner_loop_inv event e_drugs ee st0 st' :
  ev !! event = Some e_drugs → E !! event = Some ee → ee ≠ 0 →
  for_each (compute_efs_target T min_pairs event e_drugs ee)
           (map_to_list tg) st0 = Ok st' →
  inner_inv event e_drugs ee st0 (map_to_list tg) st'.
Proof.
  intros Hev HE Hee. apply for_each_inv.
  - split_and!.
    + rewrite py_sum_nil. lia.
    + intros target e. rewrite decide_False; [by rewrite union_None_l|].
      intros [_ H]. by apply elem_of_nil in H.
    + intros w. split; [auto|]. intros [?|(? & ? & ? & H & _)]; [done|].
      by apply elem_of_nil in H.
  - intros done [target t_drugs] s1 s2 Hin (HP & Hefs & Hlog) Hstep.
    apply elem_of_map_to_list in Hin.
    apply compute_efs_target_Ok in Hstep as (tt_ & Htt & HP' & Hefs' & Hlog').
    split_and!.
    + rewrite py_sum_app, py_sum_cons, py_sum_nil, HP', HP. simpl. lia.
    + intros target' e.
      assert (ef_raw E T ev tg min_pairs target event
              = stored_ef min_pairs (common t_drugs e_drugs) ee tt_) as Hraw.
      { unfold ef_raw. rewrite Hev, Hin, HE, Htt. simpl.
        by rewrite decide_False. }
      rewrite fmap_app. simpl.
      destruct (decide ((target', e) = (target, event))) as [[= -> ->]|Hne].
      * rewrite (decide_True (P := event = event ∧ target ∈ done.*1 ++ [target])).
        2:{ split; [done|]. apply elem_of_app. right. apply list_elem_of_here. }
        rewrite Hefs', Hraw.
        destruct (stored_ef _ _ _ _) as [ef|] eqn:Hst.
        -- by rewrite lookup_insert_eq, union_Some_l.
        -- rewrite union_None_l, Hefs, Hraw.
           destruct (decide (event = event ∧ _)); apply union_None_l.
      * assert (scan_efs s2 !! (target', e) = scan_efs s1 !! (target', e)) as ->.
        { rewrite Hefs'. destruct (stored_ef _ _ _ _); [|done].
          by rewrite lookup_insert_ne. }
        rewrite Hefs.
        destruct (decide (e = event ∧ target' ∈ done.*1)) as [[-> Hd]|Hd].
        -- rewrite decide_True; [done|]. split; [done|].
           apply elem_of_app. by left.
        -- rewrite decide_False; [done|]. intros [-> Hd'].
           apply elem_of_app in Hd' as [Hd'|Hd']; [by apply Hd|].
           apply list_elem_of_singleton in Hd' as ->. done.
    + intros w. rewrite Hlog', elem_of_app, Hlog. split.
      * intros [[?|(t & td & tt' & Hd & ?)]|Hw]; [by left| |].
        -- right. exists t, td, tt'. split; [|done]. apply elem_of_app. by left.
        -- case_decide as Hc; [|by apply elem_of_nil in Hw].
           apply list_elem_of_singleton in Hw as ->. destruct Hc as [? ?].
           right. exists target, t_drugs, tt_. split_and!; try done.
           apply elem_of_app. right. apply list_elem_of_here.
      * intros [?|(t & td & tt' & Hd & Ht & Hmin & Hz & ->)]; [by left; left|].
        apply elem_of_app in Hd as [Hd|Hd].
        -- left. right. by exists t, td, tt'.
        -- apply list_elem_of_singleton in Hd as [= -> ->].
           assert (tt' = tt_) as -> by congruence.
           right. rewrite decide_True by done. apply list_elem_of_here.
Qed.

(** The state after the outer loop over a list of events of [ev]. *)
Definition outer_inv (done : list (string * gset string)) (st : scan) : Prop :=
  scan_P st
  = py_sum (λ item, if decide (E !! item.1 = Some 0) then 0
                    else event_triplets tg item.2) done
  ∧ (∀ target e,
       scan_efs st !! (target, e)
       = if decide (e ∈ done.*1)
         then ef_raw E T ev tg min_pairs target e else None)
  ∧ (∀ w, w ∈ scan_log st ↔
       ∃ event target e_drugs t_drugs ee tt_,
         (event, e_drugs) ∈ done ∧ tg !! target = Some t_drugs
         ∧ E !! event = Some ee ∧ T !! target = Some tt_
         ∧ ee ≠ 0 ∧ min_pairs ≤ common t_drugs e_drugs ∧ ee * tt_ = 0
         ∧ w = (event, target, common t_drugs e_drugs, ee, tt_)).

Lemma compute_efs_event_Ok event e_drugs st st' :
  compute_efs_event E T tg min_pairs (event, e_drugs) st = Ok st' →
  ∃ ee, E !! event = Some ee
    ∧ (ee = 0 ∧ st' = st
       ∨ ee ≠ 0
         ∧ for_each (compute_efs_target T min_pairs event e_drugs ee)
                    (map_to_list tg) st = Ok st').
Proof.
  unfold compute_efs_event. intros Hrun.
  apply bind_Ok in Hrun as (ee & Hee & Hrun). apply getitem_Ok in Hee.
  exists ee. split; [done|]. case_decide; [left|right]; split; congruence.
Qed.

Lemma ef_raw_no_target target event :
  tg !! target = None → ef_raw E T ev tg min_pairs target event = None.
Proof. intros H. unfold ef_raw. rewrite H. by destruct (ev !! event). Qed.

Lemma ef_raw_no_event target event :
  ev !! event = None → ef_raw E T ev tg min_pairs target event = None.
Proof. intros H. unfold ef_raw. by rewrite H. Qed.

Lemma ef_raw_skipped target event :
  E !! event = Some 0 → ef_raw E T ev tg min_pairs target event = None.
Proof.
  intros H. unfold ef_raw. rewrite H.
  destruct (ev !! event); [|done]. destruct (tg !! target); [|done]. simpl.
  by destruct (T !! target).
Qed.

Lemma elem_of_fst_map_to_list (d : setdict) k :
  k ∈ (map_to_list d).*1 ↔ is_Some (d !! k).
Proof.
  rewrite list_elem_of_fmap. split.
  - intros ([k' v] & -> & H). apply elem_of_map_to_list in H. by eexists.
  - intros [v H]. exists (k, v). by rewrite elem_of_map_to_list.
Qed.

Lemma scan_inv st :
  compute_efs_scan E T ev tg min_pairs = Ok st → outer_inv (map_to_list ev) st.
Proof.
  apply for_each_inv.
  - split_and!; [done| |].
    { intros target e. simpl. rewrite lookup_empty.
      by destruct (decide (e ∈ [])) as [?%elem_of_nil|]. }
    intros w. split; [by intros ?%elem_of_nil|].
    by intros (? & ? & ? & ? & ? & ? & ?%elem_of_nil & _).
  - intros done [event e_drugs] s1 s2 Hin (HP & Hefs & Hlog) Hstep.
    apply elem_of_map_to_list in Hin.
    apply compute_efs_event_Ok in Hstep as (ee & HE & [[-> ->]|[Hee Hrun]]).
    + (* the event is skipped *)
      split_and!.
      * rewrite py_sum_app, py_sum_cons, py_sum_nil, HP. simpl.
        rewrite decide_True by done. lia.
      * intros target e. rewrite Hefs, fmap_app. simpl.
        destruct (decide (e ∈ done.*1)) as [Hd|Hd].
        -- rewrite decide_True; [done|]. apply elem_of_app. by left.
        -- case_decide as Hd'; [|done].
           apply elem_of_app in Hd' as [?|Hd']; [done|].
           apply list_elem_of_singleton in Hd' as ->.
           by rewrite ef_raw_skipped.
      * intros w. rewrite Hlog. split.
        -- intros (e & t & ed & td & ee & tt_ & Hd & H).
           exists e, t, ed, td, ee, tt_. split; [|done].
           apply elem_of_app. by left.
        -- intros (e & t & ed & td & ee & tt_ & Hd & Htg & HE' & HT & Hee & H).
           exists e, t, ed, td, ee, tt_. split; [|done].
           apply elem_of_app in Hd as [?|Hd]; [done|].
           apply list_elem_of_singleton in Hd as [= -> ->]. congruence.
    + (* the inner loop runs *)
      apply inner_loop_inv in Hrun as (HP' & Hefs' & Hlog'); [|done..].
      split_and!.
      * rewrite py_sum_app, py_sum_cons, py_sum_nil, HP', HP. simpl.
        rewrite decide_False by congruence. unfold event_triplets. lia.
      * intros target e. rewrite Hefs', Hefs, fmap_app. simpl.
        destruct (decide (e = event)) as [->|Hne].
        -- rewrite (decide_True (P := event ∈ done.*1 ++ [event])).
           2:{ apply elem_of_app. right. apply list_elem_of_here. }
           destruct (decide (target ∈ (map_to_list tg).*1)) as [Ht|Ht].
           ++ rewrite decide_True by done.
              destruct (ef_raw _ _ _ _ _ _ _); [apply union_Some_l|].
              by destruct (decide (event ∈ done.*1)).
           ++ rewrite decide_False by by intros [_ ?].
              rewrite union_None_l.
              rewrite elem_of_fst_map_to_list, <- eq_None_not_Some in Ht.
              rewrite (ef_raw_no_target _ _ Ht).
              by destruct (decide (event ∈ done.*1)).
        -- rewrite decide_False by by intros [? _]. rewrite union_None_l.
           destruct (decide (e ∈ done.*1)) as [Hd|Hd].
           ++ rewrite decide_True; [done|]. apply elem_of_app. by left.
           ++ rewrite decide_False; [done|].
              intros [?|?%list_elem_of_singleton]%elem_of_app; done.
      * intros w. rewrite Hlog', Hlog. split.
        -- intros [(e & t & ed & td & ee' & tt_ & Hd & H)
                  |(t & td & tt_ & Hd & HT & Hmin & Hz & ->)].
           ++ exists e, t, ed, td, ee', tt_. split; [|done].
              apply elem_of_app. by left.
           ++ apply elem_of_map_to_list in Hd.
              exists event, t, e_drugs, td, ee, tt_. split_and!; try done.
              apply elem_of_app. right. apply list_elem_of_here.
        -- intros (e & t & ed & td & ee' & tt_ & Hd & Htg & HE' & HT & H).
           apply elem_of_app in Hd as [Hd|Hd].
           ++ left. by exists e, t, ed, td, ee', tt_.
           ++ apply list_elem_of_singleton in Hd as [= -> ->].
              assert (ee' = ee) as -> by congruence.
              destruct H as (_ & Hmin & Hz & ->).
              right. exists t, td, tt_. split_and!; try done.
              by apply elem_of_map_to_list.
Qed.

(** The dict after the scan holds exactly the raw factors. *)
Lemma scan_efs_lookup st target event :
  compute_efs_scan E T ev tg min_pairs = Ok st →
  scan_efs st !! (target, event) = ef_raw E T ev tg min_pairs target event.
Proof.
  intros (_ & Hefs & _)%scan_inv. rewrite Hefs. case_decide as Hd; [done|].
  rewrite elem_of_fst_map_to_list, <- eq_None_not_Some in Hd.
  by rewrite ef_raw_no_event.
Qed.

(** The warnings are exactly the pairs with a zero denominator. *)
Lemma scan_log_spec st w :
  compute_efs_scan E T ev tg min_pairs = Ok st →
  w ∈ scan_log st ↔ warned E T ev tg min_pairs w.
Proof.
  intros (_ & _ & Hlog)%scan_inv. rewrite Hlog. unfold warned.
  split; intros (e & t & ed & td & ee & tt_ & Hd & H);
    exists e, t, ed, td, ee, tt_; (split; [|done]);
    by apply elem_of_map_to_list.
Qed.

(** The triplet count leaves out the skipped events. *)
Lemma scan_P_spec st :
  compute_efs_scan E T ev tg min_pairs = Ok st →
  scan_P st
  = py_sum (λ item, if decide (E !! item.1 = Some 0) then 0
                    else event_triplets tg item.2) (map_to_list ev).
Proof. by intros (HP & _)%scan_inv. Qed.

(** The scan raises only on a missing key of [E] or [T]. *)
Lemma scan_total :
  (∀ event, is_Some (ev !! event) → is_Some (E !! event)) →
  (∀ target, is_Some (tg !! target) → is_Some (T !! target)) →
  ∃ st, compute_efs_scan E T ev tg min_pairs = Ok st.
Proof.
  intros HE HT. apply for_each_total. intros [event e_drugs] st Hin.
  apply elem_of_map_to_list in Hin.
  destruct (HE event) as [ee Hee]; [by eexists|].
  unfold compute_efs_event, getitem. rewrite Hee. simpl.
  case_decide; [by eauto|]. apply for_each_total.
  intros [target t_drugs] st1 Hin1. apply elem_of_map_to_list in Hin1.
  apply compute_efs_target_total, HT. by eexists.
Qed.

End scan_facts.

(** *** The sums of a pruned pair of dicts *)

Lemma precompute_sums_Ok ev tg E T :
  precompute_sums ev tg = Ok (E, T) →
  E = (λ drugs, py_sum (degree (flip_setdict tg)) (elements drugs)) <$> ev
  ∧ T = (λ drugs, py_sum (degree (flip_setdict ev)) (elements drugs)) <$> tg.
Proof. rewrite precompute_sums_unfold. case_decide; [|done]. by intros [= <- <-]. Qed.

Lemma precompute_sums_E ev tg E T event :
  precompute_sums ev tg = Ok (E, T) →
  E !! event
  = (λ drugs, py_sum (degree (flip_setdict tg)) (elements drugs)) <$> ev !! event.
Proof. intros [-> _]%precompute_sums_Ok. apply lookup_fmap. Qed.

Lemma precompute_sums_T ev tg E T target :
  precompute_sums ev tg = Ok (E, T) →
  T !! target
  = (λ drugs, py_sum (degree (flip_setdict ev)) (elements drugs)) <$> tg !! target.
Proof. intros [_ ->]%precompute_sums_Ok. apply lookup_fmap. Qed.

Lemma sum_degree_nonneg (d : setdict) (drugs : gset string) :
  0 ≤ py_sum (degree d) (elements drugs).
Proof. apply py_sum_nonneg. intros x _. apply degree_nonneg. Qed.

(** Over molecules that all occur in [d], the sum of the degrees is zero
    only for the empty set. *)
Lemma sum_degree_zero (d : setdict) (drugs : gset string) :
  drugs ⊆ flatten_setdict d →
  py_sum (degree (flip_setdict d)) (elements drugs) = 0 → drugs = ∅.
Proof.
  intros Hsub Hz. apply leibniz_equiv, elements_empty_inv.
  eapply py_sum_pos_nil; [|done]. intros x Hx%elem_of_elements.
  apply Hsub, elem_of_flatten_setdict in Hx as (k & v & Hk & Hx).
  by eapply degree_flip_pos.
Qed.

Lemma common_empty_r (t_drugs : gset string) : common t_drugs ∅ = 0.
Proof.
  unfold common. replace (t_drugs ∩ ∅) with (∅ : gset string) by set_solver.
  by rewrite size_empty.
Qed.

Lemma common_nonneg (t_drugs e_drugs : gset string) : 0 ≤ common t_drugs e_drugs.
Proof. unfold common. lia. Qed.


Lemma event_triplets_empty tg : event_triplets tg ∅ = 0.
Proof.
  unfold event_triplets.
  rewrite (py_sum_ext _ (λ _, 0)) by (intros; apply common_empty_r).
  induction (map_to_list tg) as [|a l IH]; [done|].
  rewrite py_sum_cons, IH. lia.
Qed.

Lemma precompute_sums_keys ev tg E T :
  precompute_sums ev tg = Ok (E, T) →
  (∀ event, is_Some (ev !! event) → is_Some (E !! event))
  ∧ (∀ target, is_Some (tg !! target) → is_Some (T !! target)).
Proof.
  intros [-> ->]%precompute_sums_Ok.
  split; intros k [v Hk]; rewrite lookup_fmap, Hk; by eexists.
Qed.

Ltac by_compute := apply (bool_decide_unpack _); vm_compute; exact I.

(** ** The global triplet count *)

Definition ev_fixture : setdict :=
  {["e1" := {["m1"; "m2"]}; "e2" := {["m2"; "m3"]}; "e3" := ∅]}.
Definition tg_fixture : setdict :=
  {["t1" := {["m1"; "m2"]}; "t2" := {["m2"; "m3"]}]}.
Definition E_fixture : gmap string Z := {["e1" := 3; "e2" := 3; "e3" := 0]}.
Definition T_fixture : gmap string Z := {["t1" := 3; "t2" := 3]}.

(** C1: on a pruned event dict, with E and T the marginal sums of the two
    dicts, the scan of [compute_efs] completes and its count P is the sum
    of the common-molecule counts over all (event, target) pairs, whatever
    the threshold: the pairs below the threshold are counted, and the
    events skipped for E = 0 have no molecule left and add nothing.  The
    returned factors are scaled by that P. *)
Theorem compute_efs_counts_all_triplets (ev tg : setdict) (E T : gmap string Z)
    (min_pairs : Z) (ef_cutoff : Q) :
  pruned ev tg →
  precompute_sums ev tg = Ok (E, T) →
  ∃ st, compute_efs_scan E T ev tg min_pairs = Ok st
    ∧ scan_P st = all_triplets ev tg
    ∧ compute_efs E T ev tg min_pairs ef_cutoff
      = Ok ((λ ef, ef * inject_Z (all_triplets ev tg))%Q <$> scan_efs st).
Proof.
  intros Hpr Hsums.
  destruct (precompute_sums_keys _ _ _ _ Hsums) as [HE HT].
  destruct (scan_total E T ev tg min_pairs HE HT) as [st Hst].
  assert (scan_P st = all_triplets ev tg) as HP.
  { rewrite (scan_P_spec _ _ _ _ _ _ Hst). unfold all_triplets.
    apply py_sum_ext. intros [event e_drugs] Hin%elem_of_map_to_list. simpl.
    case_decide as Hz; [|done].
    rewrite (precompute_sums_E _ _ _ _ _ Hsums), Hin in Hz.
    injection Hz as Hz. apply sum_degree_zero in Hz as ->.
    - by rewrite event_triplets_empty.
    - exact (map_Forall_lookup_1 _ ev event e_drugs Hpr Hin). }
  exists st. split_and!; [done|done|].
  unfold compute_efs. rewrite Hst. simpl. by rewrite HP.
Qed.

Lemma compute_efs_counts_all_triplets_witness :
  pruned ev_fixture tg_fixture
  ∧ precompute_sums ev_fixture tg_fixture = Ok (E_fixture, T_fixture)
  ∧ all_triplets ev_fixture tg_fixture = 6
  ∧ ∃ st, compute_efs_scan E_fixture T_fixture ev_fixture tg_fixture 2 = Ok st
      ∧ scan_P st = all_triplets ev_fixture tg_fixture
      ∧ compute_efs E_fixture T_fixture ev_fixture tg_fixture 2 3
        = Ok ((λ ef, ef * inject_Z (all_triplets ev_fixture tg_fixture))%Q
                <$> scan_efs st).
Proof.
  assert (pruned ev_fixture tg_fixture) as Hpr by by_compute.
  assert (precompute_sums ev_fixture tg_fixture = Ok (E_fixture, T_fixture))
    as Hsums by (by vm_compute).
  split_and!; [done|done|by vm_compute|].
  exact (compute_efs_counts_all_triplets
           ev_fixture tg_fixture E_fixture T_fixture 2 3 Hpr Hsums).
Defined.

(** ** The stored factors *)

Lemma ef_raw_Some E T ev tg min_pairs target event raw :
  ef_raw E T ev tg min_pairs target event = Some raw ↔
  ∃ e_drugs t_drugs ee tt_,
    ev !! event = Some e_drugs ∧ tg !! target = Some t_drugs
    ∧ E !! event = Some ee ∧ T !! target = Some tt_
    ∧ ee ≠ 0 ∧ min_pairs ≤ common t_drugs e_drugs ∧ ee * tt_ ≠ 0
    ∧ raw = (inject_Z (common t_drugs e_drugs) / inject_Z (ee * tt_))%Q.
Proof.
  unfold ef_raw, stored_ef, true_div. split.
  - destruct (ev !! event) as [e_drugs|]; [|done].
    destruct (tg !! target) as [t_drugs|]; [|done].
    destruct (E !! event) as [ee|]; [|done].
    destruct (T !! target) as [tt_|]; [|done]. simpl.
    repeat case_decide; try done. intros [= <-].
    exists e_drugs, t_drugs, ee, tt_. split_and!; try done. lia.
  - intros (e_drugs & t_drugs & ee & tt_ & -> & -> & -> & -> & ? & ? & ? & ->).
    simpl. rewrite !decide_False; [done|done|lia|done].
Qed.

Definition efs_fixture : gmap (string * string) Q :=
  {[("t1", "e1") := (2 # 9) * 6; ("t2", "e2") := (2 # 9) * 6]}%Q.



(** ** Zero denominators *)


Lemma precompute_sums_T_pos ev tg E T target t_drugs tt_ :
  precompute_sums ev tg = Ok (E, T) → pruned tg ev →
  tg !! target = Some t_drugs → T !! target = Some tt_ →
  t_drugs ≠ ∅ → 0 < tt_.
Proof.
  intros Hsums Hpr Htg HT Hne.
  rewrite (precompute_sums_T _ _ _ _ _ Hsums), Htg in HT. injection HT as <-.
  pose proof (sum_degree_nonneg (flip_setdict ev) t_drugs).
  assert (py_sum (degree (flip_setdict ev)) (elements t_drugs) ≠ 0); [|lia].
  intros Hz. apply Hne. eapply sum_degree_zero; [|done].
  exact (map_Forall_lookup_1 _ tg target t_drugs Hpr Htg).
Qed.





(** ** Contingency tables *)

Lemma py_sum_fmap {A B} (f : B → Z) (g : A → B) (l : list A) :
  py_sum f (g <$> l) = py_sum (f ∘ g) l.
Proof.
  induction l as [|x l IH]; [done|]. rewrite fmap_cons, !py_sum_cons, IH. done.
Qed.

Lemma py_sum_zero {A} (f : A → Z) (l : list A) :
  (∀ x, x ∈ l → f x = 0) → py_sum f l = 0.
Proof.
  induction l as [|x l IH]; intros Hf; [done|].
  rewrite py_sum_cons, IH, (Hf x); [done|apply list_elem_of_here|].
  intros y Hy. by apply Hf, list_elem_of_further.
Qed.

Lemma py_sum_disj_union (f : string → Z) (X Y : gset string) :
  X ## Y →
  py_sum f (elements (X ∪ Y)) = py_sum f (elements X) + py_sum f (elements Y).
Proof.
  intros Hdisj.
  by rewrite (py_sum_perm f _ _ (elements_disj_union X Y Hdisj)), py_sum_app.
Qed.

Lemma py_sum_subseteq (f : string → Z) (X Y : gset string) :
  (∀ x, 0 ≤ f x) → X ⊆ Y → py_sum f (elements X) ≤ py_sum f (elements Y).
Proof.
  intros Hf Hsub. apply py_sum_submseteq; [by intros|].
  by apply elements_submseteq.
Qed.

(** Inclusion and exclusion for a sum over two sets. *)
Lemma py_sum_union (f : string → Z) (X Y : gset string) :
  py_sum f (elements (X ∪ Y))
  = py_sum f (elements X) + py_sum f (elements Y) - py_sum f (elements (X ∩ Y)).
Proof.
  assert (X ∪ Y = X ∪ Y ∖ X) as -> by (apply set_eq; intros x;
    destruct (decide (x ∈ X)); set_solver).
  assert (Y = X ∩ Y ∪ Y ∖ X) as HY by (apply set_eq; intros x;
    destruct (decide (x ∈ X)); set_solver).
  pose proof (py_sum_disj_union f X (Y ∖ X)) as H1.
  pose proof (py_sum_disj_union f (X ∩ Y) (Y ∖ X)) as H2.
  rewrite <- HY in H2. rewrite H1, H2 by set_solver. lia.
Qed.

Definition counts_nonneg (c : gmap string Z) : Prop :=
  map_Forall (λ _ n, 0 ≤ n) c.

Lemma count_nonneg c x : counts_nonneg c → 0 ≤ count c x.
Proof.
  intros Hc. unfold count. destruct (c !! x) as [n|] eqn:Hx; simpl; [|done].
  by apply (Hc x).
Qed.

Lemma counter_update_nonneg c drugs :
  counts_nonneg c → counts_nonneg (counter_update c drugs).
Proof.
  unfold counter_update. generalize (elements drugs). intros l. revert c.
  induction l as [|x l IH]; intros c Hc; simpl; [done|].
  apply IH, map_Forall_insert_2; [|done].
  pose proof (count_nonneg c x Hc). lia.
Qed.

Lemma target_counts_nonneg tg : counts_nonneg (target_counts tg).
Proof.
  unfold target_counts. generalize ((map_to_list tg).*2). intros l.
  assert (counts_nonneg ∅) as H by apply map_Forall_empty.
  revert H. generalize (∅ : gmap string Z).
  induction l as [|drugs l IH]; intros c Hc; simpl; [done|].
  by apply IH, counter_update_nonneg.
Qed.

(** The sum of all counts, as a sum over the keys of the counter. *)
Lemma sum_values_dom (c : gmap string Z) :
  py_sum id (map_to_list c).*2 = py_sum (count c) (elements (dom c)).
Proof.
  assert (elements (dom c) ≡ₚ (map_to_list c).*1) as Hperm.
  { rewrite (leibniz_equiv _ _ (dom_alt c)).
    apply elements_list_to_set, NoDup_fst_map_to_list. }
  rewrite (py_sum_perm _ _ _ Hperm), !py_sum_fmap.
  apply py_sum_ext. intros [k n] Hkn%elem_of_map_to_list. simpl.
  unfold count. by rewrite Hkn.
Qed.

(** No set of molecules weighs more than all the counts together. *)
Lemma sum_counts_le_total (c : gmap string Z) (X : gset string) :
  counts_nonneg c →
  py_sum (count c) (elements X) ≤ py_sum id (map_to_list c).*2.
Proof.
  intros Hc. rewrite sum_values_dom.
  assert (py_sum (count c) (elements (X ∖ dom c)) = 0) as Hout.
  { apply py_sum_zero. intros x Hx%elem_of_elements.
    apply elem_of_difference in Hx as [_ Hx%not_elem_of_dom].
    unfold count. by rewrite Hx. }
  assert (X ∪ dom c = dom c ∪ X ∖ dom c) as Heq by (apply set_eq; intros x;
    destruct (decide (x ∈ dom c)); set_solver).
  transitivity (py_sum (count c) (elements (X ∪ dom c))).
  - apply py_sum_subseteq; [intros; by apply count_nonneg|set_solver].
  - rewrite Heq, py_sum_disj_union by set_solver. lia.
Qed.

Lemma contingency_table_entries ev tg target event tbl :
  contingency_table ev tg (target, event) = Ok tbl →
  ∃ both events targets neither,
    tbl = ((both, events), (targets, neither))
    ∧ 0 ≤ both ∧ 0 ≤ events ∧ 0 ≤ targets ∧ 0 ≤ neither
    ∧ both + events + targets + neither = num_pairs tg.
Proof.
  unfold contingency_table.
  intros (e_drugs & _ & [= <-])%bind_Ok.
  set (t_drugs := default ∅ (tg !! target)).
  set (tc := count (target_counts tg)).
  assert (∀ x, 0 ≤ tc x) as Htc
    by (intros; apply count_nonneg, target_counts_nonneg).
  eexists _, _, _, _. split; [done|].
  pose proof (py_sum_union tc e_drugs t_drugs) as Hunion.
  pose proof (sum_counts_le_total (target_counts tg) (e_drugs ∪ t_drugs)
                (target_counts_nonneg tg)) as Htotal.
  fold tc in Htotal. fold (num_pairs tg) in Htotal.
  assert (0 ≤ py_sum tc (elements (e_drugs ∩ t_drugs)))
    by (apply py_sum_nonneg; by intros).
  assert (py_sum tc (elements (e_drugs ∩ t_drugs)) ≤ py_sum tc (elements e_drugs))
    by (apply py_sum_subseteq; [done|set_solver]).
  assert (py_sum tc (elements (e_drugs ∩ t_drugs)) ≤ py_sum tc (elements t_drugs))
    by (apply py_sum_subseteq; [done|set_solver]).
  lia.
Qed.

Lemma map_contingency_tables_lookup efs ev tg tables :
  map_contingency_tables efs ev tg = Ok tables →
  ∀ key,
    (is_Some (efs !! key) →
     ∃ tbl, contingency_table ev tg key = Ok tbl ∧ tables !! key = Some tbl)
    ∧ (efs !! key = None → tables !! key = None).
Proof.
  unfold map_contingency_tables. intros Hrun key.
  assert (key ∈ (map_to_list efs).*1 ↔ is_Some (efs !! key)) as Hkeys.
  { rewrite list_elem_of_fmap. split.
    - intros ([k ef] & -> & Hin%elem_of_map_to_list). by eexists.
    - intros [ef Hef]. exists (key, ef). by rewrite elem_of_map_to_list. }
  rewrite eq_None_not_Some, <- Hkeys. revert Hrun. clear Hkeys.
  apply (for_each_inv (λ done tables,
    (key ∈ done →
     ∃ tbl, contingency_table ev tg key = Ok tbl ∧ tables !! key = Some tbl)
    ∧ (key ∉ done → tables !! key = None))).
  - split; [by intros ?%elem_of_nil|done].
  - intros done a s1 s2 _ [Hin Hout] (tbl & Htbl & [= <-])%bind_Ok.
    destruct (decide (key = a)) as [->|Hne].
    + split.
      * intros _. exists tbl. by rewrite lookup_insert_eq.
      * intros []. apply elem_of_app. right. apply list_elem_of_here.
    + rewrite lookup_insert_ne by done. split.
      * intros [?|?%list_elem_of_singleton]%elem_of_app; [by apply Hin|done].
      * intros Hd. apply Hout. intros ?. apply Hd, elem_of_app. by left.
Qed.

Lemma map_contingency_tables_total efs ev tg :
  (∀ target event, is_Some (efs !! (target, event)) → is_Some (ev !! event)) →
  ∃ tables, map_contingency_tables efs ev tg = Ok tables.
Proof.
  intros Hev. apply for_each_total. intros key tables Hin.
  apply list_elem_of_fmap in Hin as ([[target event] ef] & -> & Hin).
  apply elem_of_map_to_list in Hin. simpl.
  destruct (Hev target event) as [e_drugs He]; [by eexists|].
  unfold contingency_table, getitem. rewrite He. simpl. by eexists.
Qed.

Definition efs_all_fixture : gmap (string * string) Q :=
  {[("t1", "e1") := 12 # 9; ("t1", "e2") := 6 # 9;
    ("t2", "e1") := 6 # 9; ("t2", "e2") := 12 # 9]}%Q.

(** C10: when the event of every key of the EF dict occurs in the event
    dict, [map_contingency_tables] returns a table for every key, and the
    four entries of each table are non-negative integers that add up to
    [num_pairs], the sum of the per-molecule target counts. *)
Theorem contingency_tables_partition (efs : gmap (string * string) Q)
    (ev tg : setdict) :
  (∀ target event, is_Some (efs !! (target, event)) → is_Some (ev !! event)) →
  ∃ tables,
    map_contingency_tables efs ev tg = Ok tables
    ∧ ∀ target event,
        is_Some (efs !! (target, event)) →
        ∃ both events targets neither,
          tables !! (target, event) = Some ((both, events), (targets, neither))
          ∧ 0 ≤ both ∧ 0 ≤ events ∧ 0 ≤ targets ∧ 0 ≤ neither
          ∧ both + events + targets + neither = num_pairs tg.
Proof.
  intros Hev. destruct (map_contingency_tables_total efs ev tg Hev) as [tables Hrun].
  exists tables. split; [done|]. intros target event Hkey.
  destruct (map_contingency_tables_lookup _ _ _ _ Hrun (target, event))
    as [Hin _].
  destruct (Hin Hkey) as (tbl & Htbl & Hlookup).
  apply contingency_table_entries in Htbl
    as (both & events & targets & neither & -> & ?).
  by exists both, events, targets, neither.
Qed.

Lemma contingency_tables_partition_witness :
  (∀ target event,
     is_Some (efs_all_fixture !! (target, event)) →
     is_Some (ev_fixture !! event))
  ∧ num_pairs tg_fixture = 4
  ∧ ∃ tables,
      map_contingency_tables efs_all_fixture ev_fixture tg_fixture = Ok tables
      ∧ ∀ target event,
          is_Some (efs_all_fixture !! (target, event)) →
          ∃ both events targets neither,
            tables !! (target, event) = Some ((both, events), (targets, neither))
            ∧ 0 ≤ both ∧ 0 ≤ events ∧ 0 ≤ targets ∧ 0 ≤ neither
            ∧ both + events + targets + neither = num_pairs tg_fixture.
Proof.
  assert (∀ target event,
            is_Some (efs_all_fixture !! (target, event)) →
            is_Some (ev_fixture !! event)) as Hev.
  { intros target event.
    assert (map_Forall (λ key _, is_Some (ev_fixture !! key.2)) efs_all_fixture)
      as Hall by by_compute.
    intros [ef Hef]. exact (Hall (target, event) ef Hef). }
  split_and!; [done|by vm_compute|].
  exact (contingency_tables_partition efs_all_fixture ev_fixture tg_fixture Hev).
Defined.

(** ** Holm's adjustment *)

Section holm.

Local Open Scope Q_scope.

Lemma Qmaximum_ge_l x y : x <= Qmaximum x y.
Proof. unfold Qmaximum. case_decide; lra. Qed.

Lemma Qmaximum_ge_r x y : y <= Qmaximum x y.
Proof. unfold Qmaximum. case_decide; lra. Qed.

Lemma Qmaximum_cases x y : Qmaximum x y = x ∨ Qmaximum x y = y.
Proof. unfold Qmaximum. case_decide; auto. Qed.

(** Entry [k] of the running maximum started at [m] bounds [m] and the
    first [k + 1] items, and is one of them. *)
Lemma accumulate_from_lookup l m k a :
  accumulate_from m l !! k = Some a →
  m <= a
  ∧ (∀ j r, (j ≤ k)%nat → l !! j = Some r → r <= a)
  ∧ (a = m ∨ ∃ j, (j ≤ k)%nat ∧ l !! j = Some a).
Proof.
  revert m k. induction l as [|x l IH]; intros m k Hk; [done|].
  simpl in Hk. destruct k as [|k]; simpl in Hk.
  - injection Hk as <-. split_and!.
    + apply Qmaximum_ge_l.
    + intros [|j] r Hj Hr; [|lia]. injection Hr as <-. apply Qmaximum_ge_r.
    + destruct (Qmaximum_cases m x) as [->| ->]; [by left|].
      right. by exists 0%nat.
  - apply IH in Hk as (Hm & Hle & Hin). split_and!.
    + pose proof (Qmaximum_ge_l m x). lra.
    + intros [|j] r Hj Hr.
      * injection Hr as <-. pose proof (Qmaximum_ge_r m x). lra.
      * apply (Hle j); [lia|done].
    + destruct Hin as [->|(j & Hj & Hr)].
      * destruct (Qmaximum_cases m x) as [->| ->]; [by left|].
        right. exists 0%nat. split; [lia|done].
      * right. exists (S j). split; [lia|done].
Qed.

Lemma maximum_accumulate_lookup raw k a :
  maximum_accumulate raw !! k = Some a →
  (∀ j r, (j ≤ k)%nat → raw !! j = Some r → r <= a)
  ∧ (∃ j, (j ≤ k)%nat ∧ raw !! j = Some a).
Proof.
  destruct raw as [|x l]; [done|]. destruct k as [|k]; simpl.
  - intros [= <-]. split.
    + intros [|j] r Hj Hr; [|lia]. injection Hr as <-. lra.
    + by exists 0%nat.
  - intros (Hm & Hle & Hin)%accumulate_from_lookup. split.
    + intros [|j] r Hj Hr.
      * by injection Hr as <-.
      * apply (Hle j); [lia|done].
    + destruct Hin as [->|(j & Hj & Hr)].
      * exists 0%nat. split; [lia|done].
      * exists (S j). split; [lia|done].
Qed.

Lemma length_accumulate_from l m : length (accumulate_from m l) = length l.
Proof. revert m. induction l as [|x l IH]; intros m; simpl; [done|]. by rewrite IH. Qed.

Lemma length_maximum_accumulate l : length (maximum_accumulate l) = length l.
Proof. destruct l; simpl; [done|]. by rewrite length_accumulate_from. Qed.

Lemma length_holm_sorted sp : length (holm_sorted sp) = length sp.
Proof.
  unfold holm_sorted.
  by rewrite length_fmap, length_maximum_accumulate, length_imap.
Qed.

(** A list in ascending order, and p-values within their range. *)
Definition ascending (l : list Q) : Prop :=
  ∀ i j x y, (i ≤ j)%nat → l !! i = Some x → l !! j = Some y → x <= y.

Definition in_range (l : list Q) : Prop := Forall (λ x, 0 <= x ∧ x <= 1) l.

Lemma in_range_lookup l i x : in_range l → l !! i = Some x → 0 <= x ∧ x <= 1.
Proof. intros Hl Hi. by apply (Forall_lookup_1 _ l i x Hl). Qed.

Definition holm_raw (sp : list Q) : list Q :=
  imap (λ k p, p * inject_Z (Z.of_nat (length sp - k))) sp.

Lemma rank_factor_ge_1 (n k : nat) :
  (k < n)%nat → 1 <= inject_Z (Z.of_nat (n - k)).
Proof. intros. change 1 with (inject_Z 1). rewrite <- Zle_Qle. lia. Qed.

Lemma rank_factor_mono (n j k : nat) :
  (k ≤ j)%nat → inject_Z (Z.of_nat (n - j)) <= inject_Z (Z.of_nat (n - k)).
Proof. intros. rewrite <- Zle_Qle. lia. Qed.

Lemma rank_factor_nonneg (n k : nat) : 0 <= inject_Z (Z.of_nat (n - k)).
Proof. change 0 with (inject_Z 0). rewrite <- Zle_Qle. lia. Qed.

(** The running maximum of the scaled p-values follows the order of the
    p-values, ties included. *)
Lemma holm_accumulate_mono sp k k' p p' a a' :
  ascending sp → in_range sp →
  sp !! k = Some p → sp !! k' = Some p' →
  maximum_accumulate (holm_raw sp) !! k = Some a →
  maximum_accumulate (holm_raw sp) !! k' = Some a' →
  p <= p' → a <= a'.
Proof.
  intros Hasc Hrange Hp Hp' Ha Ha' Hle.
  apply maximum_accumulate_lookup in Ha as (_ & j & Hj & Hraw).
  apply maximum_accumulate_lookup in Ha' as (Hbound & _).
  destruct (decide (j ≤ k')%nat) as [Hjk|Hjk]; [by apply (Hbound j)|].
  unfold holm_raw in Hraw. apply list_lookup_imap_Some in Hraw as (pj & Hpj & ->).
  assert (holm_raw sp !! k' = Some (p' * inject_Z (Z.of_nat (length sp - k'))))
    as Hraw' by (unfold holm_raw; by rewrite list_lookup_imap, Hp').
  apply (Hbound k') in Hraw'; [|lia].
  pose proof (Hasc j k pj p Hj Hpj Hp).
  destruct (in_range_lookup _ _ _ Hrange Hpj) as [Hpj0 _].
  pose proof (rank_factor_mono (length sp) j k' ltac:(lia)).
  pose proof (rank_factor_nonneg (length sp) j).
  assert (pj * inject_Z (Z.of_nat (length sp - j))
          <= p' * inject_Z (Z.of_nat (length sp - k'))) by nra.
  lra.
Qed.

Lemma holm_accumulate_ge sp k p a :
  in_range sp → sp !! k = Some p →
  maximum_accumulate (holm_raw sp) !! k = Some a → p <= a.
Proof.
  intros Hrange Hp Ha.
  apply maximum_accumulate_lookup in Ha as (Hbound & _).
  assert (holm_raw sp !! k = Some (p * inject_Z (Z.of_nat (length sp - k))))
    as Hraw by (unfold holm_raw; by rewrite list_lookup_imap, Hp).
  apply (Hbound k) in Hraw; [|lia].
  destruct (in_range_lookup _ _ _ Hrange Hp) as [Hp0 _].
  pose proof (rank_factor_ge_1 (length sp) k (lookup_lt_Some _ _ _ Hp)).
  nra.
Qed.

Lemma holm_sorted_lookup sp k c :
  holm_sorted sp !! k = Some c ↔
  ∃ a, maximum_accumulate (holm_raw sp) !! k = Some a
       ∧ c = if decide (1 < a) then 1 else a.
Proof.
  unfold holm_sorted. fold (holm_raw sp). rewrite list_lookup_fmap_Some.
  naive_solver.
Qed.

Lemma holm_sorted_mono sp k k' p p' c c' :
  ascending sp → in_range sp →
  sp !! k = Some p → sp !! k' = Some p' →
  holm_sorted sp !! k = Some c → holm_sorted sp !! k' = Some c' →
  p <= p' → c <= c'.
Proof.
  intros Hasc Hrange Hp Hp' (a & Ha & ->)%holm_sorted_lookup
    (a' & Ha' & ->)%holm_sorted_lookup Hle.
  pose proof (holm_accumulate_mono sp k k' p p' a a' Hasc Hrange Hp Hp' Ha Ha' Hle).
  repeat case_decide; lra.
Qed.

Lemma holm_sorted_ge sp k p c :
  in_range sp → sp !! k = Some p → holm_sorted sp !! k = Some c → p <= c.
Proof.
  intros Hrange Hp (a & Ha & ->)%holm_sorted_lookup.
  pose proof (holm_accumulate_ge sp k p a Hrange Hp Ha).
  destruct (in_range_lookup _ _ _ Hrange Hp). case_decide; lra.
Qed.

#[local] Instance by_pvalue_total : Total by_pvalue.
Proof.
  intros a b. unfold by_pvalue.
  destruct (Qlt_le_dec a.2 b.2); [left|right]; lra.
Qed.

#[local] Instance by_pvalue_trans : Transitive by_pvalue.
Proof. intros a b c. unfold by_pvalue. lra. Qed.

Lemma StronglySorted_ascending l : StronglySorted Qle l → ascending l.
Proof.
  induction 1 as [|x l _ IH Hall]; intros i j y z Hij Hy Hz; [done|].
  destruct i as [|i], j as [|j]; simpl in *; try lia.
  - injection Hy as <-. injection Hz as <-. lra.
  - injection Hy as <-. rewrite Forall_forall in Hall.
    by eapply Hall, list_elem_of_lookup_2.
  - apply (IH i j); [lia|done..].
Qed.

(** The p-values with their positions, in ascending order. *)
Definition ranked (p_vals : list Q) : list (nat * Q) :=
  merge_sort by_pvalue (zip (seq 0 (length p_vals)) p_vals).

Lemma ranked_perm ps : ranked ps ≡ₚ zip (seq 0 (length ps)) ps.
Proof. apply merge_sort_Permutation. Qed.

Lemma elem_of_ranked ps i p : (i, p) ∈ ranked ps ↔ ps !! i = Some p.
Proof.
  rewrite (ranked_perm ps), list_elem_of_lookup. split.
  - intros (k & Hk). apply lookup_zip_with_Some in Hk
      as (i' & p' & [= -> ->] & Hseq & Hp).
    apply lookup_seq in Hseq as [-> _]. done.
  - intros Hp. exists i. apply lookup_zip_with_Some. exists i, p.
    split_and!; [done| |done].
    apply lookup_seq. split; [done|]. by eapply lookup_lt_Some.
Qed.

Lemma ranked_fst_perm ps : (ranked ps).*1 ≡ₚ seq 0 (length ps).
Proof.
  rewrite (ranked_perm ps), fst_zip; [done|]. by rewrite length_seq.
Qed.

Lemma NoDup_ranked_fst ps : NoDup (ranked ps).*1.
Proof. rewrite ranked_fst_perm. apply NoDup_seq. Qed.

Lemma length_ranked ps : length (ranked ps) = length ps.
Proof.
  rewrite (Permutation_length (ranked_perm ps)), length_zip, length_seq. lia.
Qed.

Lemma ranked_ascending ps : ascending (ranked ps).*2.
Proof.
  apply StronglySorted_ascending.
  apply (StronglySorted_fmap snd by_pvalue Qle); [done|].
  apply StronglySorted_merge_sort; apply _.
Qed.

Lemma ranked_in_range ps : in_range ps → in_range (ranked ps).*2.
Proof.
  intros Hrange. apply Forall_lookup. intros k p Hk.
  apply list_lookup_fmap_Some in Hk as ([i p'] & -> & Hk).
  apply list_elem_of_lookup_2, elem_of_ranked in Hk.
  by apply (in_range_lookup ps i).
Qed.

(** [out[sortind] = values]: each value is written at its position. *)
Definition scatter (out : list Q) (ws : list (nat * Q)) : list Q :=
  foldl (λ out '(i, q), <[i := q]> out) out ws.

Lemma length_scatter ws out : length (scatter out ws) = length out.
Proof.
  revert out. induction ws as [|[i q] ws IH]; intros out; simpl; [done|].
  by rewrite IH, length_insert.
Qed.

Lemma scatter_lookup_notin ws out i :
  i ∉ ws.*1 → scatter out ws !! i = out !! i.
Proof.
  revert out. induction ws as [|[j q] ws IH]; intros out Hi; simpl; [done|].
  rewrite fmap_cons, not_elem_of_cons in Hi. destruct Hi as [Hij Hi].
  rewrite IH by done. by apply list_lookup_insert_ne.
Qed.

Lemma scatter_lookup_in ws out i q :
  NoDup ws.*1 → (i, q) ∈ ws → (i < length out)%nat →
  scatter out ws !! i = Some q.
Proof.
  revert out. induction ws as [|[j q'] ws IH]; intros out Hnd Hin Hlen.
  - by apply elem_of_nil in Hin.
  - rewrite fmap_cons in Hnd. apply NoDup_cons in Hnd as [Hj Hnd]. simpl.
    apply elem_of_cons in Hin as [[= -> ->]|Hin].
    + rewrite scatter_lookup_notin by done. by apply list_lookup_insert_eq.
    + apply IH; [done|done|]. by rewrite length_insert.
Qed.

Lemma multipletests_holm_unfold ps :
  multipletests_holm ps
  = scatter (replicate (length ps) 0)
            (zip (ranked ps).*1 (holm_sorted (ranked ps).*2)).
Proof. done. Qed.

Lemma length_multipletests_holm ps : length (multipletests_holm ps) = length ps.
Proof. by rewrite multipletests_holm_unfold, length_scatter, length_replicate. Qed.

(** The adjusted value of position [i] is the entry of [holm_sorted] at
    the rank of [i]. *)
Lemma multipletests_holm_lookup ps i p :
  ps !! i = Some p →
  ∃ k c, (ranked ps).*2 !! k = Some p
    ∧ holm_sorted (ranked ps).*2 !! k = Some c
    ∧ multipletests_holm ps !! i = Some c.
Proof.
  intros Hp.
  assert ((i, p) ∈ ranked ps) as Hin by by apply elem_of_ranked.
  apply list_elem_of_lookup in Hin as [k Hk].
  assert (is_Some (holm_sorted (ranked ps).*2 !! k)) as [c Hc].
  { apply lookup_lt_is_Some.
    rewrite length_holm_sorted, length_fmap. by eapply lookup_lt_Some. }
  exists k, c. split_and!; [by rewrite list_lookup_fmap, Hk|done|].
  rewrite multipletests_holm_unfold. apply scatter_lookup_in.
  - rewrite fst_zip; [apply NoDup_ranked_fst|].
    rewrite length_holm_sorted, !length_fmap. lia.
  - apply (list_elem_of_lookup_2 _ k), lookup_zip_with_Some.
    exists i, c. split_and!; [done| |done]. by rewrite list_lookup_fmap, Hk.
  - rewrite length_replicate. by eapply lookup_lt_Some.
Qed.

(** Holm's adjusted values follow the order of the p-values and are not
    below them. *)
Lemma multipletests_holm_spec ps :
  in_range ps →
  length (multipletests_holm ps) = length ps
  ∧ (∀ i j p_i p_j q_i q_j,
       ps !! i = Some p_i → ps !! j = Some p_j →
       multipletests_holm ps !! i = Some q_i →
       multipletests_holm ps !! j = Some q_j →
       p_i <= p_j → q_i <= q_j)
  ∧ (∀ i p q,
       ps !! i = Some p → multipletests_holm ps !! i = Some q → p <= q).
Proof.
  intros Hrange. pose proof (ranked_in_range ps Hrange) as Hrange'.
  split_and!; [apply length_multipletests_holm| |].
  - intros i j p_i p_j q_i q_j Hi Hj Hqi Hqj Hle.
    destruct (multipletests_holm_lookup ps i p_i Hi) as (k & c & Hk & Hc & Hq).
    destruct (multipletests_holm_lookup ps j p_j Hj) as (k' & c' & Hk' & Hc' & Hq').
    assert (q_i = c) as -> by congruence. assert (q_j = c') as -> by congruence.
    by eapply (holm_sorted_mono _ k k' p_i p_j); [apply ranked_ascending|..].
  - intros i p q Hi Hq.
    destruct (multipletests_holm_lookup ps i p Hi) as (k & c & Hk & Hc & Hq').
    assert (q = c) as -> by congruence.
    by eapply holm_sorted_ge.
Qed.

End holm.

(** ** q-values *)

Section q_values.

Variable chi2_contingency : table → result Q.

Lemma compute_q_values_Ok contingencies bonferroni_count pairs p_vals q_vals :
  compute_q_values chi2_contingency contingencies bonferroni_count
  = Ok (pairs, p_vals, q_vals) →
  pairs = (map_to_list contingencies).*1
  ∧ Forall2 (λ item p, chi2_contingency item.2 = Ok p)
            (map_to_list contingencies) p_vals
  ∧ q_vals
    = if truthy bonferroni_count
      then (λ pval, pval * inject_Z (default 0%Z bonferroni_count))%Q <$> p_vals
      else multipletests_holm p_vals.
Proof.
  unfold compute_q_values. intros ([pairs' ps] & Hloop & [= <- <- <-])%bind_Ok.
  split_and!; [| |done].
  - revert Hloop.
    apply (for_each_inv (λ done (st : list (string * string) * list Q),
                           st.1 = done.*1)); [done|].
    intros done [key tbl] [prs qs] st2 _ Hinv
      (pvalue & _ & [= <-])%bind_Ok. simpl in *.
    by rewrite fmap_app, Hinv.
  - revert Hloop.
    apply (for_each_inv (λ done (st : list (string * string) * list Q),
             Forall2 (λ item p, chi2_contingency item.2 = Ok p) done st.2)).
    + constructor.
    + intros done [key tbl] [prs qs] st2 _ Hinv
        (pvalue & Hp & [= <-])%bind_Ok. simpl in *.
      apply Forall2_app; [done|]. by repeat constructor.
Qed.

(** The call returns exactly when the test accepts every table. *)
Lemma compute_q_values_total contingencies bonferroni_count :
  (∀ key tbl, contingencies !! key = Some tbl →
     ∃ p, chi2_contingency tbl = Ok p) →
  ∃ pairs p_vals q_vals,
    compute_q_values chi2_contingency contingencies bonferroni_count
    = Ok (pairs, p_vals, q_vals).
Proof.
  intros Hchi. unfold compute_q_values.
  destruct (for_each_total
    (λ '(key, tbl) '(pairs, ps),
       pvalue ← chi2_contingency tbl; Ok (pairs ++ [key], ps ++ [pvalue]))
    (map_to_list contingencies) ([], [])) as [[pairs ps] ->].
  - intros [key tbl] [prs qs] Hin%elem_of_map_to_list.
    destruct (Hchi key tbl Hin) as [p ->]. simpl. by eexists.
  - simpl. by eexists _, _, _.
Qed.


(** C6: without a Bonferroni count, the q-values returned for p-values
    between 0 and 1 are Holm's adjusted values: as many as the p-values,
    ordered like them (a pair with the smaller or equal p-value has the
    smaller or equal q-value, so they are non-decreasing along any
    ascending order of the p-values), and none is below its p-value. *)
Theorem compute_q_values_holm
    (contingencies : gmap (string * string) table)
    (pairs : list (string * string)) (p_vals q_vals : list Q) :
  compute_q_values chi2_contingency contingencies None
  = Ok (pairs, p_vals, q_vals) →
  in_range p_vals →
  length q_vals = length p_vals
  ∧ (∀ i j p_i p_j q_i q_j,
       p_vals !! i = Some p_i → p_vals !! j = Some p_j →
       q_vals !! i = Some q_i → q_vals !! j = Some q_j →
       (p_i <= p_j)%Q → (q_i <= q_j)%Q)
  ∧ (∀ i p q, p_vals !! i = Some p → q_vals !! i = Some q → (p <= q)%Q).
Proof.
  intros (_ & _ & ->)%compute_q_values_Ok Hrange. simpl.
  by apply multipletests_holm_spec.
Qed.

End q_values.

(** A stand-in for the test on small inputs: the p-value 1/(both + 2). *)
Definition chi2_sample (tbl : table) : result Q :=
  Ok (1 # Z.to_pos (tbl.1.1 + 2)).

Definition tables_fixture : gmap (string * string) table :=
  {[("t1", "e1") := ((3, 0), (0, 1)); ("t1", "e2") := ((2, 1), (1, 0));
    ("t2", "e1") := ((2, 1), (1, 0)); ("t2", "e2") := ((3, 0), (0, 1))]}.

Definition pairs_fixture : list (string * string) :=
  [("t1", "e1"); ("t1", "e2"); ("t2", "e1"); ("t2", "e2")].



Lemma compute_q_values_holm_witness :
  compute_q_values chi2_sample tables_fixture None
  = Ok (pairs_fixture, [1 # 5; 1 # 4; 1 # 4; 1 # 5],
        [4 # 5; 4 # 5; 4 # 5; 4 # 5])
  ∧ in_range [1 # 5; 1 # 4; 1 # 4; 1 # 5]
  ∧ length [4 # 5; 4 # 5; 4 # 5; 4 # 5] = length [1 # 5; 1 # 4; 1 # 4; 1 # 5]
  ∧ (∀ i j p_i p_j q_i q_j,
       [1 # 5; 1 # 4; 1 # 4; 1 # 5] !! i = Some p_i →
       [1 # 5; 1 # 4; 1 # 4; 1 # 5] !! j = Some p_j →
       [4 # 5; 4 # 5; 4 # 5; 4 # 5] !! i = Some q_i →
       [4 # 5; 4 # 5; 4 # 5; 4 # 5] !! j = Some q_j →
       (p_i <= p_j)%Q → (q_i <= q_j)%Q)
  ∧ (∀ i p q,
       [1 # 5; 1 # 4; 1 # 4; 1 # 5] !! i = Some p →
       [4 # 5; 4 # 5; 4 # 5; 4 # 5] !! i = Some q → (p <= q)%Q).
Proof.
  assert (compute_q_values chi2_sample tables_fixture None
          = Ok (pairs_fixture, [1 # 5; 1 # 4; 1 # 4; 1 # 5],
                [4 # 5; 4 # 5; 4 # 5; 4 # 5])) as Hrun by (by vm_compute).
  assert (in_range [1 # 5; 1 # 4; 1 # 4; 1 # 5]) as Hrange by by_compute.
  split_and!; [done|done|..];
    apply (compute_q_values_holm chi2_sample tables_fixture
             pairs_fixture _ _ Hrun Hrange).
Defined.

(** ** Report filter *)

Section report_filter.

Variable fmt5g : Q → string.
Variables (efs : gmap (string * string) Q)
          (targets : gmap string (string * string))
          (ef_cutoff qvalue_cutoff : Q).

(** The row written for an item by a target of the given name. *)
Definition data_row (name : string) (item : string * string * Q * Q) (ef : Q)
  : list string :=
  [item.1.1.1; name; item.1.1.2; fmt5g ef; fmt5g item.1.2; fmt5g item.2].

Lemma report_row_Ok item out out' :
  report_row fmt5g efs targets ef_cutoff qvalue_cutoff item out = Ok out' →
  ∃ ef, efs !! item.1.1 = Some ef
    ∧ ((ef_cutoff < ef ∧ item.2 < qvalue_cutoff)%Q
       ∧ (∃ info, targets !! item.1.1.1 = Some info
                  ∧ out' = out ++ [data_row info.1 item ef])
       ∨ ¬ (ef_cutoff < ef ∧ item.2 < qvalue_cutoff)%Q ∧ out' = out).
Proof.
  destruct item as [[[target event] p_val] q_val]. unfold report_row.
  intros (ef & Hef%getitem_Ok & Hrun)%bind_Ok. exists ef. split; [done|].
  simpl. case_decide as Hpass.
  - left. split; [done|].
    apply bind_Ok in Hrun as (info & Hinfo%getitem_Ok & [= <-]).
    by exists info.
  - right. split; [done|]. by injection Hrun.
Qed.

(** The rows written after a list of items. *)
Definition report_inv (done : list (string * string * Q * Q))
    (out : list (list string)) : Prop :=
  ∃ data, out = header_row :: data
    ∧ ∀ row, row ∈ data ↔
        ∃ item ef info,
          item ∈ done ∧ efs !! item.1.1 = Some ef
          ∧ targets !! item.1.1.1 = Some info
          ∧ (ef_cutoff < ef ∧ item.2 < qvalue_cutoff)%Q
          ∧ row = data_row info.1 item ef.

Lemma report_loop_inv items out :
  for_each (report_row fmt5g efs targets ef_cutoff qvalue_cutoff)
           items [header_row] = Ok out →
  report_inv items out.
Proof.
  apply for_each_inv.
  - exists []. split; [done|]. intros row. split; [by intros ?%elem_of_nil|].
    by intros (? & ? & ? & ?%elem_of_nil & _).
  - intros done item s1 s2 _ (data & -> & Hdata) Hstep.
    apply report_row_Ok in Hstep
      as (ef & Hef & [(Hpass & info & Hinfo & ->)|(Hfail & ->)]).
    + exists (data ++ [data_row info.1 item ef]). split; [done|].
      intros row. rewrite elem_of_app, Hdata, list_elem_of_singleton. split.
      * intros [(item' & ef' & info' & Hin & H)| ->].
        -- exists item', ef', info'. split; [|done]. apply elem_of_app. by left.
        -- exists item, ef, info. split; [|done].
           apply elem_of_app. right. apply list_elem_of_here.
      * intros (item' & ef' & info' & Hin & Hef' & Hinfo' & Hpass' & ->).
        apply elem_of_app in Hin as [Hin|Hin].
        -- left. by exists item', ef', info'.
        -- apply list_elem_of_singleton in Hin as ->. right. congruence.
    + exists data. split; [done|]. intros row. rewrite Hdata.
      split; intros (item' & ef' & info' & Hin & Hef' & Hinfo' & Hpass' & ->);
        exists item', ef', info'; (split; [|done]).
      * apply elem_of_app. by left.
      * apply elem_of_app in Hin as [Hin|Hin]; [done|].
        apply list_elem_of_singleton in Hin as ->.
        destruct Hfail. congruence.
Qed.

(** A passing item has found the name of its target. *)
Lemma report_loop_names items out item ef :
  for_each (report_row fmt5g efs targets ef_cutoff qvalue_cutoff)
           items [header_row] = Ok out →
  item ∈ items → efs !! item.1.1 = Some ef →
  (ef_cutoff < ef ∧ item.2 < qvalue_cutoff)%Q →
  is_Some (targets !! item.1.1.1).
Proof.
  intros Hrun Hin Hef Hpass. revert Hrun Hin.
  apply (for_each_inv (λ done _, item ∈ done → is_Some (targets !! item.1.1.1))).
  - by intros ?%elem_of_nil.
  - intros done item' s1 s2 _ IH Hstep Hin.
    apply elem_of_app in Hin as [Hin|Hin]; [by apply IH|].
    apply list_elem_of_singleton in Hin as ->.
    apply report_row_Ok in Hstep
      as (ef' & Hef' & [(_ & info & Hinfo & _)|(Hfail & _)]).
    + by eexists.
    + destruct Hfail. congruence.
Qed.

(** C7: the output is the header followed by data rows, and the item of
    a (target, event) pair has a data row, one that starts with the target
    and has the event in third place, if and only if the EF of the pair is
    strictly above the EF cutoff and its q-value strictly below the q-value
    cutoff. *)
Theorem report_emits_iff_passes (target_event_pairs : list (string * string))
    (p_vals q_vals : list Q) (rows : list (list string)) :
  NoDup target_event_pairs →
  report fmt5g efs targets ef_cutoff qvalue_cutoff
         target_event_pairs p_vals q_vals = Ok rows →
  ∃ data, rows = header_row :: data
    ∧ ∀ i target event p_val q_val ef,
        target_event_pairs !! i = Some (target, event) →
        p_vals !! i = Some p_val → q_vals !! i = Some q_val →
        efs !! (target, event) = Some ef →
        ((∃ row, row ∈ data ∧ row !! 0%nat = Some target
                 ∧ row !! 2%nat = Some event)
         ↔ (ef_cutoff < ef ∧ q_val < qvalue_cutoff)%Q).
Proof.
  unfold report. intros Hnd Hrun.
  destruct (report_loop_inv _ _ Hrun) as (data & -> & Hdata).
  exists data. split; [done|].
  intros i target event p_val q_val ef Hi Hp Hq Hef.
  assert (zip (zip target_event_pairs p_vals) q_vals !! i
          = Some (target, event, p_val, q_val)) as Hitem.
  { apply lookup_zip_with_Some. eexists _, _. split_and!; [done| |done].
    apply lookup_zip_with_Some. by eexists _, _. }
  split.
  - intros (row & Hrow & H0 & H2).
    apply Hdata in Hrow
      as ([[[target' event'] p'] q'] & ef' & info & Hin & Hef' & _ & Hpass & ->).
    simpl in *. injection H0 as ->. injection H2 as ->.
    apply list_elem_of_lookup in Hin as [j Hj].
    apply lookup_zip_with_Some in Hj as (x & y & [= <- <-] & Hj & Hq').
    apply lookup_zip_with_Some in Hj as (x' & y' & [= <- <-] & Hj & Hp').
    assert (j = i) as -> by by eapply NoDup_lookup.
    assert (ef' = ef) as -> by congruence.
    assert (q' = q_val) as -> by congruence. done.
  - intros Hpass.
    destruct (report_loop_names _ _ (target, event, p_val, q_val) ef Hrun)
      as [info Hinfo]; [by eapply list_elem_of_lookup_2|done..|].
    exists (data_row info.1 (target, event, p_val, q_val) ef).
    split; [|done]. apply Hdata.
    exists (target, event, p_val, q_val), ef, info. split; [|done].
    by eapply list_elem_of_lookup_2.
Qed.

End report_filter.

(** A stand-in for ["%.5g" % x] on small inputs: numerator/denominator. *)
Definition fmt_sample (x : Q) : string :=
  pretty (Qnum x) +:+ "/" +:+ pretty (Zpos (Qden x)).

Definition targets_fixture : gmap string (string * string) :=
  {["t1" := ("T1", "first"); "t2" := ("T2", "second")]}.

Definition rows_fixture : list (list string) :=
  [header_row;
   ["t1"; "T1"; "e1"; "12/9"; "1/5"; "4/5"];
   ["t2"; "T2"; "e2"; "12/9"; "1/5"; "4/5"]].

Lemma report_emits_iff_passes_witness :
  NoDup pairs_fixture
  ∧ report fmt_sample efs_all_fixture targets_fixture 1 1 pairs_fixture
           [1 # 5; 1 # 4; 1 # 4; 1 # 5] [4 # 5; 4 # 5; 4 # 5; 4 # 5]
    = Ok rows_fixture
  ∧ ∃ data, rows_fixture = header_row :: data
      ∧ ∀ i target event p_val q_val ef,
          pairs_fixture !! i = Some (target, event) →
          [1 # 5; 1 # 4; 1 # 4; 1 # 5] !! i = Some p_val →
          [4 # 5; 4 # 5; 4 # 5; 4 # 5] !! i = Some q_val →
          efs_all_fixture !! (target, event) = Some ef →
          ((∃ row, row ∈ data ∧ row !! 0%nat = Some target
                   ∧ row !! 2%nat = Some event)
           ↔ (1 < ef ∧ q_val < 1)%Q).
Proof.
  assert (NoDup pairs_fixture) as Hnd by by_compute.
  assert (report fmt_sample efs_all_fixture targets_fixture 1 1 pairs_fixture
            [1 # 5; 1 # 4; 1 # 4; 1 # 5] [4 # 5; 4 # 5; 4 # 5; 4 # 5]
          = Ok rows_fixture) as Hrun by (by vm_compute).
  split_and!; [done|done|].
  exact (report_emits_iff_passes fmt_sample efs_all_fixture targets_fixture
           1 1 pairs_fixture _ _ rows_fixture Hnd Hrun).
Defined.

(** * Further properties *)

(** ** Counting triplets two ways *)

Lemma py_sum_add {A} (f g : A → Z) (l : list A) :
  py_sum (λ x, f x + g x) l = py_sum f l + py_sum g l.
Proof.
  induction l as [|x l IH]; [done|]. rewrite !py_sum_cons, IH. lia.
Qed.

(** Two nested sums may be exchanged. *)
Lemma py_sum_exchange {A B} (f : A → B → Z) (l : list A) (k : list B) :
  py_sum (λ a, py_sum (f a) k) l = py_sum (λ b, py_sum (λ a, f a b) l) k.
Proof.
  induction l as [|a l IH].
  - rewrite py_sum_nil. symmetry. by apply py_sum_zero.
  - rewrite py_sum_cons, IH, <- py_sum_add. apply py_sum_ext.
    intros b _. by rewrite py_sum_cons.
Qed.

Lemma py_sum_const_1 {A} (l : list A) : py_sum (λ _, 1) l = Z.of_nat (length l).
Proof.
  induction l as [|x l IH]; [done|]. rewrite py_sum_cons, IH. simpl length. lia.
Qed.

Lemma py_sum_elem_le {A} (f : A → Z) (l : list A) a :
  (∀ x, x ∈ l → 0 ≤ f x) → a ∈ l → f a ≤ py_sum f l.
Proof.
  intros Hf Ha. apply list_elem_of_split in Ha as (l1 & l2 & ->).
  rewrite py_sum_app, py_sum_cons.
  assert (0 ≤ py_sum f l1).
  { apply py_sum_nonneg. intros x Hx. apply Hf, elem_of_app. by left. }
  assert (0 ≤ py_sum f l2); [|lia].
  apply py_sum_nonneg. intros x Hx. apply Hf, elem_of_app. right.
  by apply list_elem_of_further.
Qed.

(** The members of [X] that lie in [Y], counted one by one. *)
Lemma py_sum_indicator (X Y : gset string) :
  py_sum (λ x, if decide (x ∈ Y) then 1 else 0) (elements X) = common Y X.
Proof.
  set (f := λ x : string, if decide (x ∈ Y) then 1 else 0).
  assert (X = X ∩ Y ∪ X ∖ Y) as HX by (apply set_eq; intros x;
    destruct (decide (x ∈ Y)); set_solver).
  assert (py_sum f (elements X)
          = py_sum f (elements (X ∩ Y)) + py_sum f (elements (X ∖ Y))) as ->.
  { rewrite <- py_sum_disj_union by set_solver. by rewrite <- HX. }
  assert (py_sum f (elements (X ∩ Y)) = Z.of_nat (length (elements (X ∩ Y))))
    as ->.
  { rewrite <- py_sum_const_1. apply py_sum_ext.
    intros x Hx%elem_of_elements. unfold f. rewrite decide_True; [done|set_solver]. }
  assert (py_sum f (elements (X ∖ Y)) = 0) as ->.
  { apply py_sum_zero. intros x Hx%elem_of_elements. unfold f.
    rewrite decide_False; [done|set_solver]. }
  unfold common. replace (Y ∩ X) with (X ∩ Y) by set_solver.
  unfold size, set_size. simpl. lia.
Qed.

Lemma NoDup_fst_filter {A} (P : string * A → Prop) `{!∀ x, Decision (P x)}
    (l : list (string * A)) :
  NoDup l.*1 → NoDup (filter P l).*1.
Proof.
  induction l as [|a l IH]; [done|]. rewrite fmap_cons, NoDup_cons.
  intros [Ha Hl]. rewrite filter_cons. case_decide; [|by apply IH].
  rewrite fmap_cons, NoDup_cons. split; [|by apply IH].
  intros (b & Hb & Hin%list_elem_of_filter)%list_elem_of_fmap.
  apply Ha, list_elem_of_fmap. exists b. by destruct Hin.
Qed.

Lemma length_filter_sum {A} (P : A → Prop) `{!∀ x, Decision (P x)} (l : list A) :
  Z.of_nat (length (filter P l)) = py_sum (λ a, if decide (P a) then 1 else 0) l.
Proof.
  induction l as [|a l IH]; [done|].
  rewrite filter_cons, py_sum_cons, <- IH. case_decide; simpl length; lia.
Qed.

(** The degree of a molecule in the flipped dict is the number of entries
    of the dict that list it. *)
Lemma degree_flip_count (d : setdict) x :
  degree (flip_setdict d) x
  = py_sum (λ item : string * gset string,
              if decide (x ∈ item.2) then 1 else 0) (map_to_list d).
Proof.
  unfold degree.
  assert (default ∅ (flip_setdict d !! x)
          = list_to_set
              (filter (λ item : string * gset string, x ∈ item.2)
                      (map_to_list d)).*1) as ->.
  { apply set_eq. intros k.
    rewrite flip_setdict_elem, elem_of_list_to_set, list_elem_of_fmap. split.
    - intros (v & Hk & Hx). exists (k, v). split; [done|].
      apply list_elem_of_filter. split; [done|]. by apply elem_of_map_to_list.
    - intros ([k' v] & -> & [Hx Hin%elem_of_map_to_list]%list_elem_of_filter).
      by exists v. }
  rewrite size_list_to_set
    by (apply NoDup_fst_filter, NoDup_fst_map_to_list).
  by rewrite length_fmap, length_filter_sum.
Qed.

(** Summing the degrees over a set of molecules counts, entry by entry,
    the molecules the entry shares with the set. *)
Lemma sum_degree_common (d : setdict) (X : gset string) :
  py_sum (degree (flip_setdict d)) (elements X)
  = py_sum (λ item, common item.2 X) (map_to_list d).
Proof.
  rewrite (py_sum_ext _ _ _ (λ x _, degree_flip_count d x)).
  rewrite py_sum_exchange. apply py_sum_ext. intros [k v] _. simpl.
  apply py_sum_indicator.
Qed.

Lemma common_comm (X Y : gset string) : common X Y = common Y X.
Proof. unfold common. by replace (X ∩ Y) with (Y ∩ X) by set_solver. Qed.

Lemma sum_values_fmap {A} (f : A → Z) (m : gmap string A) :
  py_sum id (map_to_list (f <$> m)).*2 = py_sum (λ item, f item.2) (map_to_list m).
Proof.
  rewrite map_to_list_fmap, !py_sum_fmap. apply py_sum_ext. by intros [k v] _.
Qed.

Lemma precompute_sums_E_triplets ev tg E T event e_drugs :
  precompute_sums ev tg = Ok (E, T) → ev !! event = Some e_drugs →
  E !! event = Some (event_triplets tg e_drugs).
Proof.
  intros Hsums Hev. rewrite (precompute_sums_E _ _ _ _ _ Hsums), Hev. simpl.
  by rewrite sum_degree_common.
Qed.

Lemma precompute_sums_T_triplets ev tg E T target t_drugs :
  precompute_sums ev tg = Ok (E, T) → tg !! target = Some t_drugs →
  T !! target = Some (py_sum (λ item, common t_drugs item.2) (map_to_list ev)).
Proof.
  intros Hsums Htg. rewrite (precompute_sums_T _ _ _ _ _ Hsums), Htg. simpl.
  rewrite sum_degree_common. f_equal. apply py_sum_ext.
  intros [event e_drugs] _. apply common_comm.
Qed.

Lemma precompute_sums_totals ev tg E T :
  precompute_sums ev tg = Ok (E, T) →
  py_sum id (map_to_list E).*2 = all_triplets ev tg
  ∧ py_sum id (map_to_list T).*2 = all_triplets ev tg.
Proof.
  intros [-> ->]%precompute_sums_Ok. rewrite !sum_values_fmap. split.
  - apply py_sum_ext. intros [event e_drugs] _. simpl. apply sum_degree_common.
  - unfold all_triplets, event_triplets.
    rewrite (py_sum_exchange (λ (a : string * gset string)
                                (b : string * gset string), common b.2 a.2)).
    apply py_sum_ext. intros [target t_drugs] _. simpl.
    rewrite sum_degree_common. apply py_sum_ext.
    intros [event e_drugs] _. apply common_comm.
Qed.

Lemma scan_P_all_triplets ev tg E T min_pairs st :
  precompute_sums ev tg = Ok (E, T) →
  compute_efs_scan E T ev tg min_pairs = Ok st →
  scan_P st = all_triplets ev tg.
Proof.
  intros Hsums Hst. rewrite (scan_P_spec _ _ _ _ _ _ Hst). unfold all_triplets.
  apply py_sum_ext. intros [event e_drugs] Hin%elem_of_map_to_list. simpl.
  case_decide as Hz; [|done].
  rewrite (precompute_sums_E_triplets _ _ _ _ _ _ Hsums Hin) in Hz.
  by injection Hz.
Qed.

Definition ev_unpruned : setdict :=
  {["e1" := {["m1"; "m2"]}; "e2" := {["m9"]}]}.

(** X1.  The marginal sums are the row and column sums of the common-molecule
    counts: E[event] adds the counts of the event over all targets and
    T[target] those of the target over all events, pruned dicts or not,
    so both dicts add up to the number of triplets. *)
Theorem precompute_sums_are_marginals (ev tg : setdict) (E T : gmap string Z) :
  precompute_sums ev tg = Ok (E, T) →
  (∀ event e_drugs, ev !! event = Some e_drugs →
     E !! event
     = Some (py_sum (λ item, common item.2 e_drugs) (map_to_list tg)))
  ∧ (∀ target t_drugs, tg !! target = Some t_drugs →
       T !! target
       = Some (py_sum (λ item, common t_drugs item.2) (map_to_list ev)))
  ∧ dom E = dom ev ∧ dom T = dom tg
  ∧ py_sum id (map_to_list E).*2 = all_triplets ev tg
  ∧ py_sum id (map_to_list T).*2 = all_triplets ev tg.
Proof.
  intros Hsums. split_and!.
  - intros event e_drugs. by apply (precompute_sums_E_triplets ev tg E T).
  - intros target t_drugs. by apply (precompute_sums_T_triplets ev tg E T).
  - apply precompute_sums_Ok in Hsums as [-> _]. apply dom_fmap_L.
  - apply precompute_sums_Ok in Hsums as [_ ->]. apply dom_fmap_L.
  - by apply (precompute_sums_totals ev tg E T).
  - by apply (precompute_sums_totals ev tg E T).
Qed.

Lemma precompute_sums_are_marginals_witness :
  precompute_sums ev_unpruned tg_fixture
  = Ok ({["e1" := 3; "e2" := 0]}, {["t1" := 2; "t2" := 1]})
  ∧ all_triplets ev_unpruned tg_fixture = 3
  ∧ py_sum id (map_to_list ({["e1" := 3; "e2" := 0]} : gmap string Z)).*2
    = all_triplets ev_unpruned tg_fixture.
Proof.
  assert (precompute_sums ev_unpruned tg_fixture
          = Ok ({["e1" := 3; "e2" := 0]}, {["t1" := 2; "t2" := 1]})) as Hsums
    by (by vm_compute).
  split_and!; [done|by vm_compute|].
  apply (precompute_sums_are_marginals ev_unpruned tg_fixture _ _ Hsums).
Defined.

(** X2.  Skipping the events with E = 0 loses no triplet: whenever E and T are
    the marginal sums of the two dicts, pruned or not, the scan of
    [compute_efs] completes and its count P is the number of all triplets,
    which is also the total of E and the total of T. *)
Theorem compute_efs_P_is_total (ev tg : setdict) (E T : gmap string Z)
    (min_pairs : Z) :
  precompute_sums ev tg = Ok (E, T) →
  ∃ st, compute_efs_scan E T ev tg min_pairs = Ok st
    ∧ scan_P st = all_triplets ev tg
    ∧ scan_P st = py_sum id (map_to_list E).*2
    ∧ scan_P st = py_sum id (map_to_list T).*2.
Proof.
  intros Hsums.
  destruct (precompute_sums_keys _ _ _ _ Hsums) as [HE HT].
  destruct (scan_total E T ev tg min_pairs HE HT) as [st Hst].
  pose proof (scan_P_all_triplets _ _ _ _ _ _ Hsums Hst) as HP.
  destruct (precompute_sums_totals _ _ _ _ Hsums) as [HEsum HTsum].
  exists st. split_and!; [done|done|congruence|congruence].
Qed.

Lemma compute_efs_P_is_total_witness :
  precompute_sums ev_unpruned tg_fixture
  = Ok ({["e1" := 3; "e2" := 0]}, {["t1" := 2; "t2" := 1]})
  ∧ ∃ st, compute_efs_scan {["e1" := 3; "e2" := 0]} {["t1" := 2; "t2" := 1]}
            ev_unpruned tg_fixture 4 = Ok st
      ∧ scan_P st = all_triplets ev_unpruned tg_fixture
      ∧ scan_P st
        = py_sum id (map_to_list ({["e1" := 3; "e2" := 0]} : gmap string Z)).*2
      ∧ scan_P st
        = py_sum id (map_to_list ({["t1" := 2; "t2" := 1]} : gmap string Z)).*2.
Proof.
  assert (precompute_sums ev_unpruned tg_fixture
          = Ok ({["e1" := 3; "e2" := 0]}, {["t1" := 2; "t2" := 1]})) as Hsums
    by (by vm_compute).
  split; [done|].
  exact (compute_efs_P_is_total ev_unpruned tg_fixture _ _ 4 Hsums).
Defined.

(** ** Which pairs are stored *)

Lemma common_le_event_triplets (tg : setdict) target t_drugs e_drugs :
  tg !! target = Some t_drugs → common t_drugs e_drugs ≤ event_triplets tg e_drugs.
Proof.
  intros Htg. unfold event_triplets.
  apply (py_sum_elem_le (λ item : string * gset string, common item.2 e_drugs)
           _ (target, t_drugs)).
  - intros ? _. apply common_nonneg.
  - by apply elem_of_map_to_list.
Qed.

Lemma common_le_target_triplets (ev : setdict) event t_drugs e_drugs :
  ev !! event = Some e_drugs →
  common t_drugs e_drugs
  ≤ py_sum (λ item, common t_drugs item.2) (map_to_list ev).
Proof.
  intros Hev.
  apply (py_sum_elem_le (λ item : string * gset string, common t_drugs item.2)
           _ (event, e_drugs)).
  - intros ? _. apply common_nonneg.
  - by apply elem_of_map_to_list.
Qed.

(** With the marginal sums and a threshold of at least 1, a pair that
    reaches the threshold has a positive denominator. *)
Lemma ef_raw_threshold ev tg E T min_pairs target event e_drugs t_drugs :
  precompute_sums ev tg = Ok (E, T) → 1 ≤ min_pairs →
  ev !! event = Some e_drugs → tg !! target = Some t_drugs →
  min_pairs ≤ common t_drugs e_drugs →
  ∃ ee tt_, E !! event = Some ee ∧ T !! target = Some tt_
    ∧ 0 < ee ∧ 0 < tt_
    ∧ ef_raw E T ev tg min_pairs target event
      = Some (inject_Z (common t_drugs e_drugs) / inject_Z (ee * tt_))%Q.
Proof.
  intros Hsums Hone Hev Htg Hmin.
  pose proof (precompute_sums_E_triplets _ _ _ _ _ _ Hsums Hev) as HE.
  pose proof (precompute_sums_T_triplets _ _ _ _ _ _ Hsums Htg) as HT.
  pose proof (common_le_event_triplets tg target t_drugs e_drugs Htg).
  pose proof (common_le_target_triplets ev event t_drugs e_drugs Hev).
  eexists _, _. split_and!; [done|done|lia|lia|].
  apply ef_raw_Some. eexists _, _, _, _.
  split_and!; [done|done|done|done|lia|done|nia|done].
Qed.

(** X3.  With E and T the marginal sums of the two dicts and a threshold of at
    least 1, [compute_efs] returns, reports no pair, and stores exactly the
    pairs whose common-molecule count reaches the threshold, each with the
    value p * P / (E * T) where E and T are positive. *)
Theorem compute_efs_stores_iff_threshold (ev tg : setdict) (E T : gmap string Z)
    (min_pairs : Z) (ef_cutoff : Q) :
  precompute_sums ev tg = Ok (E, T) → 1 ≤ min_pairs →
  ∃ st efs,
    compute_efs_scan E T ev tg min_pairs = Ok st
    ∧ scan_log st = []
    ∧ compute_efs E T ev tg min_pairs ef_cutoff = Ok efs
    ∧ ∀ target event,
        is_Some (efs !! (target, event))
        ↔ ∃ e_drugs t_drugs,
            ev !! event = Some e_drugs ∧ tg !! target = Some t_drugs
            ∧ min_pairs ≤ common t_drugs e_drugs.
Proof.
  intros Hsums Hone.
  destruct (precompute_sums_keys _ _ _ _ Hsums) as [HE HT].
  destruct (scan_total E T ev tg min_pairs HE HT) as [st Hst].
  exists st, ((λ ef, ef * inject_Z (scan_P st))%Q <$> scan_efs st).
  split_and!; [done| | |].
  - apply elem_of_nil_inv. intros w Hw.
    apply (scan_log_spec _ _ _ _ _ _ _ Hst) in Hw
      as (event & target & e_drugs & t_drugs & ee & tt_
          & Hev & Htg & HEe & HTt & Hee & Hmin & Hz & _).
    destruct (ef_raw_threshold _ _ _ _ _ _ _ _ _ Hsums Hone Hev Htg Hmin)
      as (ee' & tt' & HEe' & HTt' & ? & ? & _).
    assert (ee' = ee) as -> by congruence.
    assert (tt' = tt_) as -> by congruence. nia.
  - unfold compute_efs. by rewrite Hst.
  - intros target event.
    rewrite lookup_fmap, fmap_is_Some, (scan_efs_lookup _ _ _ _ _ _ _ _ Hst).
    split.
    + intros [raw Hraw]. apply ef_raw_Some in Hraw
        as (e_drugs & t_drugs & ee & tt_ & ? & ? & ? & ? & ? & ? & _).
      by exists e_drugs, t_drugs.
    + intros (e_drugs & t_drugs & Hev & Htg & Hmin).
      destruct (ef_raw_threshold _ _ _ _ _ _ _ _ _ Hsums Hone Hev Htg Hmin)
        as (ee & tt_ & _ & _ & _ & _ & ->). by eexists.
Qed.

Lemma compute_efs_stores_iff_threshold_witness :
  precompute_sums ev_unpruned tg_fixture
  = Ok ({["e1" := 3; "e2" := 0]}, {["t1" := 2; "t2" := 1]})
  ∧ 1 ≤ 2
  ∧ ∃ st efs,
      compute_efs_scan {["e1" := 3; "e2" := 0]} {["t1" := 2; "t2" := 1]}
        ev_unpruned tg_fixture 2 = Ok st
      ∧ scan_log st = []
      ∧ compute_efs {["e1" := 3; "e2" := 0]} {["t1" := 2; "t2" := 1]}
          ev_unpruned tg_fixture 2 3 = Ok efs
      ∧ ∀ target event,
          is_Some (efs !! (target, event))
          ↔ ∃ e_drugs t_drugs,
              ev_unpruned !! event = Some e_drugs
              ∧ tg_fixture !! target = Some t_drugs
              ∧ 2 ≤ common t_drugs e_drugs.
Proof.
  assert (precompute_sums ev_unpruned tg_fixture
          = Ok ({["e1" := 3; "e2" := 0]}, {["t1" := 2; "t2" := 1]})) as Hsums
    by (by vm_compute).
  assert (1 ≤ 2) as Hone by lia.
  split_and!; [done|done|].
  exact (compute_efs_stores_iff_threshold ev_unpruned tg_fixture _ _ 2 3
           Hsums Hone).
Defined.

(** ** The counter of the contingency builder *)

Lemma count_insert c x y n :
  count (<[y := n]> c) x = if decide (x = y) then n else count c x.
Proof.
  unfold count. case_decide as H.
  - subst. by rewrite lookup_insert_eq.
  - by rewrite lookup_insert_ne.
Qed.

Lemma count_update_list (l : list string) c x :
  NoDup l →
  count (foldl (λ c x, <[x := count c x + 1]> c) c l) x
  = count c x + (if decide (x ∈ l) then 1 else 0).
Proof.
  revert c. induction l as [|y l IH]; intros c Hnd; cbn [foldl].
  - destruct (decide (x ∈ [])) as [?%elem_of_nil|]; [done|lia].
  - apply NoDup_cons in Hnd as [Hy Hnd]. rewrite IH by done.
    rewrite count_insert. destruct (decide (x = y)) as [->|Hne].
    + rewrite decide_False by done.
      rewrite decide_True by apply list_elem_of_here. lia.
    + destruct (decide (x ∈ l)) as [Hin|Hin].
      * rewrite decide_True; [done|]. by apply list_elem_of_further.
      * rewrite decide_False; [done|].
        intros [?|?]%elem_of_cons; done.
Qed.

Lemma count_counter_update c drugs x :
  count (counter_update c drugs) x
  = count c x + (if decide (x ∈ drugs) then 1 else 0).
Proof.
  unfold counter_update. rewrite count_update_list by apply NoDup_elements.
  destruct (decide (x ∈ elements drugs)) as [Hin|Hin];
    rewrite elem_of_elements in Hin.
  - by rewrite decide_True.
  - by rewrite decide_False.
Qed.

Lemma count_foldl_counter_update (l : list (gset string)) c x :
  count (foldl counter_update c l) x
  = count c x + py_sum (λ drugs, if decide (x ∈ drugs) then 1 else 0) l.
Proof.
  revert c. induction l as [|drugs l IH]; intros c; simpl.
  - rewrite py_sum_nil. lia.
  - rewrite IH, count_counter_update, py_sum_cons. lia.
Qed.

(** The counter gives each molecule the number of targets that list it. *)
Lemma count_target_counts (tg : setdict) x :
  count (target_counts tg) x = degree (flip_setdict tg) x.
Proof.
  unfold target_counts.
  rewrite count_foldl_counter_update, py_sum_fmap, degree_flip_count.
  unfold count. rewrite lookup_empty. simpl. done.
Qed.

(** A sum over a set depends only on the members with a non-zero term. *)
Lemma py_sum_support (f : string → Z) (X Y : gset string) :
  (∀ x, x ∈ X → x ∉ Y → f x = 0) → (∀ x, x ∈ Y → x ∉ X → f x = 0) →
  py_sum f (elements X) = py_sum f (elements Y).
Proof.
  intros HX HY.
  assert (X ∪ Y ∖ X = Y ∪ X ∖ Y) as Heq by (apply set_eq; intros x;
    destruct (decide (x ∈ X)); destruct (decide (x ∈ Y)); set_solver).
  pose proof (py_sum_disj_union f X (Y ∖ X) ltac:(set_solver)) as H1.
  pose proof (py_sum_disj_union f Y (X ∖ Y) ltac:(set_solver)) as H2.
  rewrite Heq in H1.
  rewrite (py_sum_zero f (elements (Y ∖ X))) in H1
    by (intros x Hx%elem_of_elements; apply HY; set_solver).
  rewrite (py_sum_zero f (elements (X ∖ Y))) in H2
    by (intros x Hx%elem_of_elements; apply HX; set_solver).
  lia.
Qed.

Lemma sum_counts_degree (tg : setdict) (X : gset string) :
  py_sum (count (target_counts tg)) (elements X) = event_triplets tg X.
Proof.
  rewrite (py_sum_ext _ _ _ (λ x _, count_target_counts tg x)).
  apply sum_degree_common.
Qed.

Lemma num_pairs_sizes (tg : setdict) :
  num_pairs tg = py_sum (λ item, Z.of_nat (size item.2)) (map_to_list tg).
Proof.
  unfold num_pairs. rewrite sum_values_dom.
  rewrite (py_sum_support _ _ (flatten_setdict tg)).
  - rewrite sum_counts_degree. unfold event_triplets. apply py_sum_ext.
    intros [target t_drugs] Hin%elem_of_map_to_list. simpl. unfold common.
    f_equal. f_equal. apply set_eq. intros x. split; [set_solver|].
    intros Hx. apply elem_of_intersection. split; [done|].
    apply elem_of_flatten_setdict. eauto.
  - intros x _ Hx. rewrite count_target_counts. by apply degree_flip_zero.
  - intros x _ Hx%not_elem_of_dom. unfold count. by rewrite Hx.
Qed.

(** X4.  The counter of [map_contingency_tables] gives each molecule the number
    of targets that list it, a molecule of no target reading as 0, and
    [num_pairs] is the number of (molecule, target) pairs: the total size
    of the target sets. *)
Theorem target_counts_count_targets (tg : setdict) :
  (∀ x, count (target_counts tg) x
        = Z.of_nat (size (filter (λ item, x ∈ item.2) tg)))
  ∧ (∀ x, x ∉ flatten_setdict tg → count (target_counts tg) x = 0)
  ∧ num_pairs tg = py_sum (λ item, Z.of_nat (size item.2)) (map_to_list tg).
Proof.
  split_and!.
  - intros x. rewrite count_target_counts, degree_flip_count.
    rewrite map_filter_alt, map_size_list_to_map
      by (apply NoDup_fst_filter, NoDup_fst_map_to_list).
    by rewrite length_filter_sum.
  - intros x Hx. rewrite count_target_counts. by apply degree_flip_zero.
  - apply num_pairs_sizes.
Qed.

Lemma contingency_table_Ok ev tg target event tbl :
  contingency_table ev tg (target, event) = Ok tbl →
  ∃ e_drugs, ev !! event = Some e_drugs
    ∧ let t_drugs := default ∅ (tg !! target) in
      let both := event_triplets tg (e_drugs ∩ t_drugs) in
      tbl = ((both, event_triplets tg e_drugs - both),
             (event_triplets tg t_drugs - both,
              num_pairs tg - both - (event_triplets tg e_drugs - both)
              - (event_triplets tg t_drugs - both))).
Proof.
  unfold contingency_table.
  intros (e_drugs & He%getitem_Ok & [= <-])%bind_Ok.
  exists e_drugs. split; [done|]. simpl. by rewrite !sum_counts_degree.
Qed.

Lemma event_triplets_ge_size (tg : setdict) target t_drugs (X : gset string) :
  tg !! target = Some t_drugs → X ⊆ t_drugs →
  Z.of_nat (size X) ≤ event_triplets tg X.
Proof.
  intros Htg Hsub.
  transitivity (common t_drugs X); [|by eapply common_le_event_triplets].
  unfold common. by replace (t_drugs ∩ X) with X by set_solver.
Qed.

(** X5.  The margins of a contingency table: with E the marginal sums, the
    first row (both + events-only) is E[event]; the first column (both +
    targets-only) counts the (molecule, target) pairs of the molecules of
    the target; and the weighted entry "both" is at least the plain number
    of molecules the target and the event have in common. *)
Theorem contingency_table_margins (ev tg : setdict) (E T : gmap string Z)
    (target event : string) (t_drugs : gset string)
    (both events targets neither : Z) :
  precompute_sums ev tg = Ok (E, T) →
  tg !! target = Some t_drugs →
  contingency_table ev tg (target, event)
  = Ok ((both, events), (targets, neither)) →
  E !! event = Some (both + events)
  ∧ both + targets
    = py_sum (λ item, common item.2 t_drugs) (map_to_list tg)
  ∧ ∃ e_drugs, ev !! event = Some e_drugs ∧ common t_drugs e_drugs ≤ both.
Proof.
  intros Hsums Htg (e_drugs & Hev & Htbl)%contingency_table_Ok.
  rewrite Htg in Htbl. simpl in Htbl. injection Htbl as -> -> -> ->.
  split_and!.
  - rewrite (precompute_sums_E_triplets _ _ _ _ _ _ Hsums Hev). f_equal. lia.
  - unfold event_triplets. lia.
  - exists e_drugs. split; [done|]. unfold common.
    replace (t_drugs ∩ e_drugs) with (e_drugs ∩ t_drugs) by set_solver.
    apply (event_triplets_ge_size tg target t_drugs); [done|set_solver].
Qed.

Lemma contingency_table_margins_witness :
  precompute_sums ev_fixture tg_fixture = Ok (E_fixture, T_fixture)
  ∧ tg_fixture !! "t1" = Some {["m1"; "m2"]}
  ∧ contingency_table ev_fixture tg_fixture ("t1", "e2")
    = Ok ((2, 1), (1, 0))
  ∧ E_fixture !! "e2" = Some (2 + 1)
  ∧ 2 + 1 = py_sum (λ item, common item.2 {["m1"; "m2"]})
                   (map_to_list tg_fixture)
  ∧ ∃ e_drugs, ev_fixture !! "e2" = Some e_drugs
      ∧ common {["m1"; "m2"]} e_drugs ≤ 2.
Proof.
  assert (precompute_sums ev_fixture tg_fixture = Ok (E_fixture, T_fixture))
    as Hsums by (by vm_compute).
  assert (tg_fixture !! "t1" = Some {["m1"; "m2"]}) as Htg by (by vm_compute).
  assert (contingency_table ev_fixture tg_fixture ("t1", "e2")
          = Ok ((2, 1), (1, 0))) as Htbl by (by vm_compute).
  split_and!; [done|done|done|..];
    apply (contingency_table_margins ev_fixture tg_fixture E_fixture T_fixture
             "t1" "e2" _ 2 1 1 0 Hsums Htg Htbl).
Defined.

(** ** Reversing a dict of sets *)

(** X6.  [flip_setdict] reverses the dict: a value [x] maps to the set of the
    keys whose set holds [x]; the keys of the result are the flattened
    values of the input, and no set of the result is empty. *)
Theorem flip_setdict_reverses (d : setdict) :
  (∀ x k, k ∈ default ∅ (flip_setdict d !! x)
          ↔ ∃ v, d !! k = Some v ∧ x ∈ v)
  ∧ dom (flip_setdict d) = flatten_setdict d
  ∧ (∀ x ks, flip_setdict d !! x = Some ks → ks ≠ ∅ ∧ ks ⊆ dom d).
Proof.
  split_and!.
  - intros x k. apply flip_setdict_elem.
  - apply dom_flip_setdict.
  - intros x ks Hx.
    assert (is_Some (flip_setdict d !! x)) as (k & v & Hk & Hxv)%flip_setdict_is_Some
      by by eexists.
    pose proof (proj2 (flip_setdict_elem d x k) (ex_intro _ v (conj Hk Hxv))) as Hin.
    rewrite Hx in Hin. simpl in Hin. split; [set_solver|].
    intros k' Hk'.
    pose proof (proj1 (flip_setdict_elem d x k')) as Hel. rewrite Hx in Hel.
    destruct (Hel Hk') as (v' & Hv' & _). by eapply elem_of_dom_2.
Qed.

(** X7.  Flipping twice gives the dict back, less the keys whose set is empty. *)
Theorem flip_setdict_twice (d : setdict) :
  flip_setdict (flip_setdict d) = filter (λ kv, kv.2 ≠ ∅) d.
Proof.
  apply map_eq. intros k. apply option_eq. intros s.
  rewrite map_lookup_filter_Some. simpl.
  assert (∀ v, d !! k = Some v →
               default ∅ (flip_setdict (flip_setdict d) !! k) = v) as Hval.
  { intros v Hv. apply set_eq. intros x. rewrite flip_setdict_elem. split.
    - intros (ks & Hks & Hk).
      pose proof (proj1 (flip_setdict_elem d x k)) as Hel. rewrite Hks in Hel.
      destruct (Hel Hk) as (v' & Hv' & Hx). congruence.
    - intros Hx.
      pose proof (proj2 (flip_setdict_elem d x k) (ex_intro _ v (conj Hv Hx)))
        as Hin.
      destruct (flip_setdict d !! x) as [ks|]; [|set_solver]. by exists ks. }
  split.
  - intros Hs.
    assert (is_Some (flip_setdict (flip_setdict d) !! k))
      as (x & ks & Hks & Hk)%flip_setdict_is_Some by by eexists.
    pose proof (proj1 (flip_setdict_elem d x k)) as Hel. rewrite Hks in Hel.
    destruct (Hel Hk) as (v & Hv & Hx).
    pose proof (Hval v Hv) as Heq. rewrite Hs in Heq. simpl in Heq. subst s.
    split; [done|set_solver].
  - intros [Hs Hne].
    apply set_choose_L in Hne as [x Hx].
    assert (is_Some (flip_setdict (flip_setdict d) !! k)) as [s' Hs'].
    { apply flip_setdict_is_Some.
      pose proof (proj2 (flip_setdict_elem d x k) (ex_intro _ s (conj Hs Hx)))
        as Hin.
      destruct (flip_setdict d !! x) as [ks|] eqn:Hks; [|set_solver].
      by exists x, ks. }
    pose proof (Hval s Hs) as Heq. rewrite Hs' in Heq. simpl in Heq.
    by subst s'.
Qed.

(** ** Reading the two tables *)

(** A loop raises the exception of one of its bodies. *)
Lemma for_each_Raise {A S} (body : A → S → result S) (l : list A) s e :
  for_each body l s = Raise e → ∃ a s', a ∈ l ∧ body a s' = Raise e.
Proof.
  revert s. induction l as [|a l IH]; intros s Hrun; [done|]. simpl in Hrun.
  destruct (body a s) as [s1|e'] eqn:Hbody; simpl in Hrun.
  - destruct (IH s1 Hrun) as (a' & s' & Hin & Hr).
    exists a', s'. split; [by apply list_elem_of_further|done].
  - injection Hrun as ->. exists a, s. split; [apply list_elem_of_here|done].
Qed.

(** In a loop that completes, every body completed. *)
Lemma for_each_Ok_body {A S} (body : A → S → result S) (l : list A) s s' a :
  for_each body l s = Ok s' → a ∈ l → ∃ s1 s2, body a s1 = Ok s2.
Proof.
  revert s. induction l as [|b l IH]; intros s Hrun Hin.
  - by apply elem_of_nil in Hin.
  - apply bind_Ok in Hrun as (s1 & Hbody & Hrun).
    apply elem_of_cons in Hin as [->|Hin]; [by eauto|by eapply IH].
Qed.

Lemma setdict_add_elem (x k : string) (out : setdict) y j :
  j ∈ default ∅ (setdict_add x k out !! y)
  ↔ j ∈ default ∅ (out !! y) ∨ (y = x ∧ j = k).
Proof.
  unfold setdict_add. destruct (decide (y = x)) as [->|Hne].
  - rewrite lookup_insert_eq. simpl. set_solver.
  - rewrite lookup_insert_ne by done. naive_solver.
Qed.

Lemma setdict_add_is_Some (x k : string) (out : setdict) y :
  is_Some (setdict_add x k out !! y) ↔ is_Some (out !! y) ∨ y = x.
Proof.
  unfold setdict_add. destruct (decide (y = x)) as [->|Hne].
  - rewrite lookup_insert_eq. split; [by right|by eexists].
  - rewrite lookup_insert_ne by done. naive_solver.
Qed.

(** No entry of the dict is the empty set. *)
Definition no_empty_set (d : setdict) : Prop :=
  map_Forall (λ _ s, s ≠ (∅ : gset string)) d.

Lemma setdict_add_no_empty_set x k out :
  no_empty_set out → no_empty_set (setdict_add x k out).
Proof.
  intros Hout. apply map_Forall_insert_2; [set_solver|done].
Qed.

Definition read_events_row (row : list string) (events_to_drugs : setdict)
  : result setdict :=
  match row with
  | cid :: eid :: _ => Ok (setdict_add eid cid events_to_drugs)
  | _ => Raise ValueError
  end.

Lemma read_events_row_Ok row d d' :
  read_events_row row d = Ok d' →
  ∃ cid eid rest, row = cid :: eid :: rest ∧ d' = setdict_add eid cid d.
Proof.
  destruct row as [|cid [|eid rest]]; try done. intros [= <-]. by eauto.
Qed.

Lemma read_events_row_Raise row d e :
  read_events_row row d = Raise e → e = ValueError ∧ (length row < 2)%nat.
Proof.
  destruct row as [|cid [|eid rest]]; try done; intros [= <-]; simpl;
    split; (done || lia).
Qed.

Lemma read_events_loop rows ev :
  for_each read_events_row rows ∅ = Ok ev →
  (∀ eid cid, cid ∈ default ∅ (ev !! eid) ↔ ∃ rest, (cid :: eid :: rest) ∈ rows)
  ∧ no_empty_set ev.
Proof.
  apply (for_each_inv (λ done (ev : setdict),
    (∀ eid cid, cid ∈ default ∅ (ev !! eid) ↔ ∃ rest, (cid :: eid :: rest) ∈ done)
    ∧ no_empty_set ev)).
  - split; [|apply map_Forall_empty]. intros eid cid. rewrite lookup_empty.
    split; [set_solver|]. by intros (? & ?%elem_of_nil).
  - intros done row d d' _ [Hel Hne]
      (cid0 & eid0 & rest0 & -> & ->)%read_events_row_Ok.
    split; [|by apply setdict_add_no_empty_set].
    intros eid cid. rewrite setdict_add_elem, Hel. split.
    + intros [(rest & Hin)|[-> ->]].
      * exists rest. apply elem_of_app. by left.
      * exists rest0. apply elem_of_app. right. apply list_elem_of_here.
    + intros (rest & [Hin|Hin%list_elem_of_singleton]%elem_of_app).
      * left. by exists rest.
      * right. by injection Hin as -> -> _.
Qed.

(** X8.  [read_events] raises only [ValueError], and only on a row with fewer
    than two columns.  Otherwise an event maps to the molecules of its
    rows, columns after the second being ignored; every event of the dict
    has a molecule; and [has_event] holds the molecules of all rows. *)
Theorem read_events_groups_rows (events_reader : list (list string)) :
  match read_events events_reader with
  | Ok (events_to_drugs, has_event) =>
      Forall (λ row, (2 ≤ length row)%nat) events_reader
      ∧ (∀ eid cid, cid ∈ default ∅ (events_to_drugs !! eid)
                    ↔ ∃ rest, (cid :: eid :: rest) ∈ events_reader)
      ∧ (∀ eid drugs, events_to_drugs !! eid = Some drugs → drugs ≠ ∅)
      ∧ has_event = flatten_setdict events_to_drugs
      ∧ (∀ cid, cid ∈ has_event ↔ ∃ eid rest, (cid :: eid :: rest) ∈ events_reader)
  | Raise e =>
      e = ValueError ∧ ∃ row, row ∈ events_reader ∧ (length row < 2)%nat
  end.
Proof.
  unfold read_events. fold read_events_row.
  change (λ (row : list string) (events_to_drugs : setdict),
            match row with
            | cid :: eid :: _ => Ok (setdict_add eid cid events_to_drugs)
            | _ => Raise ValueError
            end) with read_events_row.
  destruct (for_each read_events_row events_reader ∅) as [ev|e] eqn:Hrun; simpl.
  - destruct (read_events_loop _ _ Hrun) as [Hel Hne]. split_and!; try done.
    + apply Forall_forall. intros row Hin.
      destruct (for_each_Ok_body _ _ _ _ _ Hrun Hin)
        as (d & d' & (cid & eid & rest & -> & _)%read_events_row_Ok).
      simpl. lia.
    + intros cid. rewrite elem_of_flatten_setdict. split.
      * intros (eid & drugs & Heid & Hcid).
        exists eid. apply Hel. by rewrite Heid.
      * intros (eid & Hrest). apply Hel in Hrest.
        destruct (ev !! eid) as [drugs|] eqn:Heid; [|set_solver].
        by exists eid, drugs.
  - apply for_each_Raise in Hrun as (row & d & Hin & [-> Hlen]%read_events_row_Raise).
    split; [done|]. by exists row.
Qed.

Definition read_results_row (has_event : gset string) (row : list string)
    (st : gmap string (string * string) * setdict)
  : result (gmap string (string * string) * setdict) :=
  let '(targets, targets_to_drugs) := st in
  match row with
  | [cid; smiles; tid; affinity; pvalue; maxtc; name; desc] =>
      if decide (cid ∉ has_event)
      then Ok (targets, targets_to_drugs)
      else
        Ok (match targets !! tid with
            | None => <[tid := (name, desc)]> targets
            | Some _ => targets
            end,
            setdict_add tid cid targets_to_drugs)
  | _ => Raise ValueError
  end.

(** The name and description a row gives to a target, when the row is
    one of the target and its molecule has an event. *)
Definition target_info (has_event : gset string) (tid : string)
    (row : list string) : option (string * string) :=
  match row with
  | [cid; _; tid'; _; _; _; name; desc] =>
      if decide (cid ∈ has_event ∧ tid' = tid) then Some (name, desc) else None
  | _ => None
  end.

Lemma read_results_unfold results_reader has_event :
  read_results results_reader has_event
  = match results_reader with
    | [] => Raise StopIteration
    | header :: rows =>
        '(targets, targets_to_drugs) ←
          for_each (read_results_row has_event) rows (∅, ∅);
        Ok (targets_to_drugs, flatten_setdict targets_to_drugs, targets)
    end.
Proof.
  destruct results_reader as [|header rows]; [done|]. unfold read_results.
  f_equal.
Qed.

Lemma read_results_row_Ok he row targets tg st' :
  read_results_row he row (targets, tg) = Ok st' →
  ∃ cid smiles tid affinity pvalue maxtc name desc,
    row = [cid; smiles; tid; affinity; pvalue; maxtc; name; desc]
    ∧ ((cid ∉ he) ∧ st' = (targets, tg)
       ∨ cid ∈ he
         ∧ st' = (match targets !! tid with
                  | None => <[tid := (name, desc)]> targets
                  | Some _ => targets
                  end, setdict_add tid cid tg)).
Proof.
  unfold read_results_row.
  destruct row as [|cid [|smiles [|tid [|affinity [|pvalue [|maxtc [|name
    [|desc [|]]]]]]]]]; try done.
  intros Hst. exists cid, smiles, tid, affinity, pvalue, maxtc, name, desc.
  split; [done|]. case_decide as Hcid.
  - left. split; [done|]. by injection Hst as <-.
  - right. split; [done|]. by injection Hst as <-.
Qed.

Lemma read_results_row_Raise he row st e :
  read_results_row he row st = Raise e → e = ValueError ∧ length row ≠ 8%nat.
Proof.
  unfold read_results_row. destruct st as [targets tg].
  destruct row as [|cid [|smiles [|tid [|affinity [|pvalue [|maxtc [|name
    [|desc [|]]]]]]]]]; try (intros [= <-]; split; [done|simpl; lia]).
  by case_decide.
Qed.

(** What the loop of [read_results] has built after some rows. *)
Definition read_results_inv (he : gset string) (done : list (list string))
    (st : gmap string (string * string) * setdict) : Prop :=
  (∀ tid cid, cid ∈ default ∅ (st.2 !! tid)
     ↔ cid ∈ he ∧ ∃ row, row ∈ done ∧ length row = 8%nat
                         ∧ row !! 0%nat = Some cid ∧ row !! 2%nat = Some tid)
  ∧ (∀ tid, st.1 !! tid = head (omap (target_info he tid) done))
  ∧ (∀ tid, is_Some (st.1 !! tid) ↔ is_Some (st.2 !! tid))
  ∧ no_empty_set st.2.

Lemma read_results_loop he rows st :
  for_each (read_results_row he) rows (∅, ∅) = Ok st →
  read_results_inv he rows st.
Proof.
  apply for_each_inv.
  - split_and!; simpl.
    + intros tid cid. rewrite lookup_empty. split; [set_solver|].
      by intros (_ & ? & ?%elem_of_nil & _).
    + intros tid. by rewrite lookup_empty.
    + intros tid. by rewrite !lookup_empty.
    + apply map_Forall_empty.
  - intros done row [targets tg] st2 _ (Hel & Hinfo & Hkeys & Hne) Hstep.
    simpl in *.
    apply read_results_row_Ok in Hstep
      as (cid0 & smiles & tid0 & affinity & pvalue & maxtc & name & desc & ->
          & [[Hcid ->]|[Hcid ->]]); simpl.
    + (* the row is rejected *)
      split_and!; simpl; [| |done|done].
      * intros tid cid. rewrite Hel. split.
        -- intros (? & row & Hin & H). split; [done|]. exists row.
           split; [|done]. apply elem_of_app. by left.
        -- intros (Hhe & row & [Hin|Hin%list_elem_of_singleton]%elem_of_app
                   & Hlen & H0 & H2).
           ++ split; [done|]. by exists row.
           ++ subst row. simpl in H0. by injection H0 as ->.
      * intros tid. rewrite omap_app, head_app, <- Hinfo. simpl.
        rewrite decide_False by by intros [? _].
        simpl. by destruct (targets !! tid).
    + (* the row is kept *)
      split_and!; simpl.
      * intros tid cid. rewrite setdict_add_elem, Hel. split.
        -- intros [(? & row & Hin & H)|[-> ->]].
           ++ split; [done|]. exists row. split; [|done].
              apply elem_of_app. by left.
           ++ split; [done|]. eexists.
              split; [apply elem_of_app; right; apply list_elem_of_here|done].
        -- intros (Hhe & row & [Hin|Hin%list_elem_of_singleton]%elem_of_app
                   & Hlen & H0 & H2).
           ++ left. split; [done|]. by exists row.
           ++ subst row. simpl in H0, H2. right. split; congruence.
      * intros tid. rewrite omap_app, head_app, <- Hinfo. simpl.
        destruct (decide (tid0 = tid)) as [->|Hne'].
        -- rewrite decide_True by done. simpl.
           destruct (targets !! tid) eqn:Ht; [done|]. by rewrite lookup_insert_eq.
        -- rewrite decide_False by by intros [_ ?]. simpl.
           destruct (targets !! tid0) eqn:Ht0.
           ++ by destruct (targets !! tid).
           ++ rewrite lookup_insert_ne by done. by destruct (targets !! tid).
      * intros tid. rewrite setdict_add_is_Some, <- Hkeys.
        destruct (targets !! tid0) eqn:Ht0.
        -- split; [by left|]. intros [?|Heq]; [done|]. subst tid. by eexists.
        -- destruct (decide (tid = tid0)) as [->|Hne'].
           ++ rewrite lookup_insert_eq. split; [by right|by eexists].
           ++ rewrite lookup_insert_ne by done. naive_solver.
      * by apply setdict_add_no_empty_set.
Qed.

(** X9.  [read_results] raises [StopIteration] on an empty reader, where the
    header is missing, and [ValueError] on a row after the header that
    has not eight columns; nothing else.  Otherwise the first row is
    skipped; a target maps to the molecules of its rows that have an
    event, the other rows being dropped; every target of the dict has a
    molecule; [has_target] holds the molecules kept, all of them in
    [has_event]; and the name and description of a target are those of
    the first of its rows that was kept. *)
Theorem read_results_groups_rows (results_reader : list (list string))
    (has_event : gset string) :
  match read_results results_reader has_event with
  | Ok (targets_to_drugs, has_target, targets) =>
      Forall (λ row, length row = 8%nat) (tail results_reader)
      ∧ results_reader ≠ []
      ∧ (∀ tid cid, cid ∈ default ∅ (targets_to_drugs !! tid)
           ↔ cid ∈ has_event
             ∧ ∃ row, row ∈ tail results_reader
                 ∧ row !! 0%nat = Some cid ∧ row !! 2%nat = Some tid)
      ∧ (∀ tid drugs, targets_to_drugs !! tid = Some drugs → drugs ≠ ∅)
      ∧ has_target = flatten_setdict targets_to_drugs
      ∧ has_target ⊆ has_event
      ∧ dom targets = dom targets_to_drugs
      ∧ (∀ tid, targets !! tid
                = head (omap (target_info has_event tid) (tail results_reader)))
  | Raise e =>
      (e = StopIteration ∧ results_reader = [])
      ∨ (e = ValueError
         ∧ ∃ row, row ∈ tail results_reader ∧ length row ≠ 8%nat)
  end.
Proof.
  rewrite read_results_unfold.
  destruct results_reader as [|header rows]; [by left|]. simpl.
  destruct (for_each (read_results_row has_event) rows (∅, ∅))
    as [[targets tg]|e] eqn:Hrun; simpl.
  - destruct (read_results_loop _ _ _ Hrun) as (Hel & Hinfo & Hkeys & Hne).
    simpl in *.
    assert (Forall (λ row, length row = 8%nat) rows) as Hlen.
    { apply Forall_forall. intros row Hin.
      destruct (for_each_Ok_body _ _ _ _ _ Hrun Hin) as ([t d] & st2 & Hbody).
      apply read_results_row_Ok in Hbody
        as (? & ? & ? & ? & ? & ? & ? & ? & -> & _). done. }
    split_and!; try done.
    + intros tid cid. rewrite Hel. split.
      * intros (? & row & ? & _ & ? & ?). split; [done|]. by exists row.
      * intros (? & row & Hin & ? & ?). split; [done|]. exists row.
        split_and!; try done.
        by apply (proj1 (Forall_forall _ rows) Hlen).
    + intros x (tid & drugs & Htid & Hx)%elem_of_flatten_setdict.
      apply (Hel tid x). by rewrite Htid.
    + apply set_eq. intros tid. by rewrite !elem_of_dom.
  - right.
    apply for_each_Raise in Hrun
      as (row & st & Hin & [-> Hlen]%read_results_row_Raise).
    split; [done|]. by exists row.
Qed.

(** ** The pipeline *)

Lemma bind_Raise {A B} (r : result A) (k : A → result B) e :
  r ≫= k = Raise e ↔ r = Raise e ∨ ∃ a, r = Ok a ∧ k a = Raise e.
Proof.
  destruct r as [a|e']; simpl; split.
  - intros H. right. by exists a.
  - by intros [[=]|(? & [= <-] & ?)].
  - intros [= ->]. by left.
  - by intros [[= ->]|(? & [=] & _)].
Qed.

Lemma read_events_Ok events_reader ev0 he :
  read_events events_reader = Ok (ev0, he) →
  for_each read_events_row events_reader ∅ = Ok ev0 ∧ he = flatten_setdict ev0.
Proof.
  unfold read_events.
  change (λ (row : list string) (events_to_drugs : setdict),
            match row with
            | cid :: eid :: _ => Ok (setdict_add eid cid events_to_drugs)
            | _ => Raise ValueError
            end) with read_events_row.
  by intros (ev & Hrun & [= <- <-])%bind_Ok.
Qed.

Lemma read_results_Ok results_reader he tg ht targets :
  read_results results_reader he = Ok (tg, ht, targets) →
  ∃ header rows, results_reader = header :: rows
    ∧ for_each (read_results_row he) rows (∅, ∅) = Ok (targets, tg)
    ∧ ht = flatten_setdict tg.
Proof.
  rewrite read_results_unfold.
  destruct results_reader as [|header rows]; [done|].
  intros ([targets' tg'] & Hrun & [= <- <- <-])%bind_Ok. by exists header, rows.
Qed.

(** The dicts that [ef_analysis] hands to the later stages. *)
Lemma pipeline_maps events_reader results_reader ev0 he tg ht targets :
  read_events events_reader = Ok (ev0, he) →
  read_results results_reader he = Ok (tg, ht, targets) →
  flatten_setdict (prune_events ev0 he ht) = flatten_setdict tg
  ∧ pruned (prune_events ev0 he ht) tg
  ∧ pruned tg (prune_events ev0 he ht)
  ∧ no_empty_set tg
  ∧ dom targets = dom tg.
Proof.
  intros [_ ->]%read_events_Ok (header & rows & -> & Hrun & ->)%read_results_Ok.
  destruct (read_results_loop _ _ _ Hrun) as (Hel & _ & Hkeys & Hne).
  simpl in *.
  assert (flatten_setdict tg ⊆ flatten_setdict ev0) as Hsub.
  { intros x (tid & drugs & Htid & Hx)%elem_of_flatten_setdict.
    apply (Hel tid x). by rewrite Htid. }
  assert (flatten_setdict (prune_events ev0 (flatten_setdict ev0)
                             (flatten_setdict tg)) = flatten_setdict tg) as Heq.
  { apply set_eq. intros x. split.
    - by apply pruned_flatten_subseteq, prune_events_pruned.
    - intros Hx. pose proof (Hsub x Hx) as Hx0.
      apply elem_of_flatten_setdict in Hx0 as (event & drugs & Hev & Hxd).
      apply elem_of_flatten_setdict.
      exists event, (drugs ∩ flatten_setdict tg).
      rewrite prune_events_lookup, Hev. split; [done|set_solver]. }
  split_and!; [done|apply prune_events_pruned| |done|].
  - apply map_Forall_lookup. intros tid drugs Htid x Hx. rewrite Heq.
    apply elem_of_flatten_setdict. eauto.
  - apply set_eq. intros tid. by rewrite !elem_of_dom.
Qed.

Lemma compute_q_values_Raise chi2 contingencies bonferroni_count e :
  compute_q_values chi2 contingencies bonferroni_count = Raise e →
  ∃ key tbl, contingencies !! key = Some tbl ∧ chi2 tbl = Raise e.
Proof.
  unfold compute_q_values.
  intros [Hloop|([pairs ps] & _ & [=])]%bind_Raise.
  apply for_each_Raise in Hloop as ([key tbl] & [prs qs] & Hin & Hbody).
  apply elem_of_map_to_list in Hin. exists key, tbl. split; [done|].
  by apply bind_Raise in Hbody as [?|(? & _ & [=])].
Qed.

Lemma map_contingency_tables_dom efs ev tg tables :
  map_contingency_tables efs ev tg = Ok tables → dom tables = dom efs.
Proof.
  intros Hrun. apply set_eq. intros key. rewrite !elem_of_dom.
  destruct (map_contingency_tables_lookup _ _ _ _ Hrun key) as [Hin Hout].
  split.
  - intros Hkey. destruct (efs !! key) eqn:Hef; [by eexists|].
    rewrite (Hout eq_refl) in Hkey. by destruct Hkey.
  - intros Hkey. destruct (Hin Hkey) as (tbl & _ & ->). by eexists.
Qed.

(** The stages after the enrichment scorer, when every stored pair has
    its event in the event dict and its target in the side table. *)
Lemma analysis_tail (chi2 : table → result Q) (fmt : Q → string)
    (efs : gmap (string * string) Q) (ev tg : setdict)
    (targets : gmap string (string * string)) (bonferroni_count : option Z)
    (ef_cutoff qvalue_cutoff : Q) :
  (∀ target event, is_Some (efs !! (target, event)) →
     is_Some (ev !! event) ∧ is_Some (targets !! target)) →
  match
    contingencies ← map_contingency_tables efs ev tg;
    '(target_event_pairs, p_vals, q_vals) ←
      compute_q_values chi2 contingencies bonferroni_count;
    if decide (length target_event_pairs = size efs)
    then report fmt efs targets ef_cutoff qvalue_cutoff
                target_event_pairs p_vals q_vals
    else Raise AssertionError
  with
  | Ok rows => ∃ data, rows = header_row :: data
  | Raise e => ∃ tbl, chi2 tbl = Raise e
  end.
Proof.
  intros Hkeys.
  destruct (map_contingency_tables_total efs ev tg) as [tables Htables].
  { intros target event Hkey. by apply (Hkeys target event). }
  rewrite Htables. simpl.
  pose proof (map_contingency_tables_dom _ _ _ _ Htables) as Hdom.
  destruct (compute_q_values chi2 tables bonferroni_count)
    as [[[pairs ps] qs]|e] eqn:Hq; simpl.
  2:{ apply compute_q_values_Raise in Hq as (key & tbl & _ & Hraise).
      by exists tbl. }
  apply compute_q_values_Ok in Hq as (Hpairs & _ & _).
  rewrite decide_True.
  2:{ rewrite Hpairs, length_fmap, length_map_to_list.
      by rewrite <- (size_dom tables), Hdom, size_dom. }
  unfold report.
  destruct (for_each_total (report_row fmt efs targets ef_cutoff qvalue_cutoff)
              (zip (zip pairs ps) qs) [header_row]) as [out Hout].
  - intros [[[target event] p_val] q_val] out Hin.
    apply list_elem_of_lookup in Hin as [i Hi].
    apply lookup_zip_with_Some in Hi as (x & q' & [= <- <-] & Hi & _).
    apply lookup_zip_with_Some in Hi as (key & p' & [= <- <-] & Hi & _).
    assert (is_Some (efs !! (target, event))) as Hkey.
    { apply elem_of_dom. rewrite <- Hdom. apply elem_of_dom.
      rewrite Hpairs in Hi.
      apply list_lookup_fmap_Some in Hi as ([k tbl] & ? & Hi). simpl in *.
      subst k. apply list_elem_of_lookup_2, elem_of_map_to_list in Hi.
      by eexists. }
    destruct (Hkeys target event Hkey) as [_ [info Hinfo]].
    destruct Hkey as [ef Hef].
    unfold report_row, getitem. rewrite Hef. simpl.
    case_decide; [|by eexists]. rewrite Hinfo. simpl. by eexists.
  - rewrite Hout. destruct (report_loop_inv _ _ _ _ _ _ _ Hout) as (data & -> & _).
    by exists data.
Qed.

(** Every pair stored by [compute_efs] has its event and its target in
    the two dicts. *)
Lemma compute_efs_keys E T ev tg min_pairs ef_cutoff efs target event :
  compute_efs E T ev tg min_pairs ef_cutoff = Ok efs →
  is_Some (efs !! (target, event)) →
  is_Some (ev !! event) ∧ is_Some (tg !! target).
Proof.
  unfold compute_efs. intros (st & Hst & [= <-])%bind_Ok.
  rewrite lookup_fmap, fmap_is_Some, (scan_efs_lookup _ _ _ _ _ _ _ _ Hst).
  intros [raw Hraw]. apply ef_raw_Some in Hraw
    as (e_drugs & t_drugs & ee & tt_ & -> & -> & _). split; by eexists.
Qed.

(** The outcomes of [ef_analysis] in the model: the header row followed
    by the data rows, [ValueError] or [StopIteration] on a malformed
    table, or an exception of the chi-squared test. *)
Lemma ef_analysis_outcomes (chi2_contingency : table → result Q)
    (fmt5g : Q → string) (events_reader results_reader : list (list string))
    (min_pairs : Z) (ef_cutoff qvalue_cutoff : Q) (bonferroni : bool) :
  match ef_analysis chi2_contingency fmt5g events_reader results_reader
                    min_pairs ef_cutoff qvalue_cutoff bonferroni with
  | Ok rows => ∃ data, rows = header_row :: data
  | Raise e =>
      (e = ValueError ∧ ∃ row, row ∈ events_reader ∧ (length row < 2)%nat)
      ∨ (e = StopIteration ∧ results_reader = [])
      ∨ (e = ValueError
         ∧ ∃ row, row ∈ tail results_reader ∧ length row ≠ 8%nat)
      ∨ ∃ tbl, chi2_contingency tbl = Raise e
  end.
Proof.
  unfold ef_analysis.
  destruct (read_events events_reader) as [[ev0 he]|e] eqn:Hev.
  2:{ simpl. left. unfold read_events in Hev.
      apply bind_Raise in Hev as [Hev|(? & _ & [=])].
      apply for_each_Raise in Hev as (row & d & Hin & Hrow).
      change (read_events_row row d = Raise e) in Hrow.
      apply read_events_row_Raise in Hrow as [-> Hlen]. split; [done|].
      by exists row. }
  simpl.
  destruct (read_results results_reader he) as [[[tg ht] targets]|e] eqn:Hres.
  2:{ simpl. right. rewrite read_results_unfold in Hres.
      destruct results_reader as [|header rows].
      - injection Hres as <-. by left.
      - right. left.
        apply bind_Raise in Hres as [Hres|([? ?] & _ & [=])].
        apply for_each_Raise in Hres
          as (row & st & Hin & [-> Hlen]%read_results_row_Raise).
        split; [done|]. by exists row. }
  simpl.
  destruct (pipeline_maps _ _ _ _ _ _ _ Hev Hres)
    as (Hflat & Hpr & Hpr' & Hne & Hdom).
  set (ev := prune_events ev0 he ht) in *.
  assert (∃ E T, precompute_sums ev tg = Ok (E, T)) as (E & T & Hsums).
  { rewrite precompute_sums_unfold, !size_flip_setdict, Hflat.
    rewrite decide_True by done. by eexists _, _. }
  rewrite Hsums. simpl.
  destruct (precompute_sums_keys _ _ _ _ Hsums) as [HE HT].
  destruct (scan_total E T ev tg min_pairs HE HT) as [st Hst].
  assert (compute_efs E T ev tg min_pairs ef_cutoff
          = Ok ((λ ef, ef * inject_Z (scan_P st))%Q <$> scan_efs st)) as Hefs
    by (unfold compute_efs; by rewrite Hst).
  rewrite Hefs. simpl.
  set (efs := (λ ef, ef * inject_Z (scan_P st))%Q <$> scan_efs st) in *.
  assert (∀ target event, is_Some (efs !! (target, event)) →
            is_Some (ev !! event) ∧ is_Some (targets !! target)) as Hkeys.
  { intros target event Hkey.
    destruct (compute_efs_keys _ _ _ _ _ _ _ _ _ Hefs Hkey) as [? Htg].
    split; [done|]. apply elem_of_dom. rewrite Hdom. by apply elem_of_dom. }
  destruct bonferroni.
  - pose proof (analysis_tail chi2_contingency fmt5g
      (filter (λ kv, ef_cutoff <= kv.2)%Q efs) ev tg targets
      (Some (Z.of_nat (size efs))) ef_cutoff qvalue_cutoff) as Htail.
    destruct (_ ≫= _) as [rows|e].
    + apply Htail. intros target event [ef Hef].
      apply map_lookup_filter_Some in Hef as [Hef _].
      apply Hkeys. by eexists.
    + right. right. right. apply Htail. intros target event [ef Hef].
      apply map_lookup_filter_Some in Hef as [Hef _].
      apply Hkeys. by eexists.
  - pose proof (analysis_tail chi2_contingency fmt5g efs ev tg targets
      None ef_cutoff qvalue_cutoff Hkeys) as Htail.
    destruct (_ ≫= _) as [rows|e]; [done|]. by right; right; right.
Qed.

(** ** What pruning changes *)

Lemma for_each_fmap {A B S} (f : A → B) (body : B → S → result S)
    (l : list A) s :
  for_each body (f <$> l) s = for_each (λ a, body (f a)) l s.
Proof.
  revert s. induction l as [|a l IH]; intros s; simpl; [done|].
  destruct (body (f a) s); simpl; [apply IH|done].
Qed.

Lemma for_each_ext {A S} (body body' : A → S → result S) (l : list A) s :
  (∀ a s, a ∈ l → body a s = body' a s) →
  for_each body l s = for_each body' l s.
Proof.
  revert s. induction l as [|a l IH]; intros s Hext; simpl; [done|].
  rewrite (Hext a s) by apply list_elem_of_here.
  destruct (body' a s); simpl; [|done].
  apply IH. intros a' s' Hin. by apply Hext, list_elem_of_further.
Qed.

Lemma common_prune_r (tg : setdict) target t_drugs e_drugs :
  tg !! target = Some t_drugs →
  common t_drugs (e_drugs ∩ flatten_setdict tg) = common t_drugs e_drugs.
Proof.
  intros Htg. unfold common. f_equal. f_equal. apply set_eq. intros x.
  split; [set_solver|]. intros [Ht He]%elem_of_intersection.
  repeat (apply elem_of_intersection; split); try done.
  apply elem_of_flatten_setdict. eauto.
Qed.

Lemma event_triplets_prune (tg : setdict) e_drugs :
  event_triplets tg (e_drugs ∩ flatten_setdict tg) = event_triplets tg e_drugs.
Proof.
  unfold event_triplets. apply py_sum_ext.
  intros [target t_drugs] Hin%elem_of_map_to_list. simpl.
  by eapply common_prune_r.
Qed.

Lemma compute_efs_scan_prune E T (ev tg : setdict) he min_pairs :
  compute_efs_scan E T (prune_events ev he (flatten_setdict tg)) tg min_pairs
  = compute_efs_scan E T ev tg min_pairs.
Proof.
  unfold compute_efs_scan.
  rewrite prune_events_fmap, map_to_list_fmap, for_each_fmap.
  apply for_each_ext. intros [event e_drugs] st _. simpl.
  destruct (getitem E event) as [ee|]; simpl; [|done].
  case_decide; [done|]. apply for_each_ext.
  intros [target t_drugs] st' Hin%elem_of_map_to_list.
  unfold compute_efs_target. destruct (getitem T target) as [tt_|]; simpl; [|done].
  fold (common t_drugs (e_drugs ∩ flatten_setdict tg)).
  fold (common t_drugs e_drugs). by rewrite (common_prune_r tg target).
Qed.

Lemma precompute_sums_prune_values (ev tg : setdict) he :
  (λ drugs, py_sum (degree (flip_setdict tg)) (elements drugs))
    <$> prune_events ev he (flatten_setdict tg)
  = (λ drugs, py_sum (degree (flip_setdict tg)) (elements drugs)) <$> ev
  ∧ (λ drugs, py_sum (degree (flip_setdict
                                (prune_events ev he (flatten_setdict tg))))
                     (elements drugs)) <$> tg
    = (λ drugs, py_sum (degree (flip_setdict ev)) (elements drugs)) <$> tg.
Proof.
  split.
  - rewrite prune_events_fmap, <- map_fmap_compose.
    apply map_fmap_ext. intros event e_drugs _. simpl.
    rewrite !sum_degree_common. apply event_triplets_prune.
  - apply map_fmap_ext. intros target t_drugs Htg.
    rewrite !sum_degree_common, prune_events_fmap, map_to_list_fmap, py_sum_fmap.
    apply py_sum_ext. intros [event e_drugs] _. simpl.
    rewrite !(common_comm _ t_drugs). by eapply common_prune_r.
Qed.

Definition ev_extra : setdict :=
  {["e1" := {["m1"; "m2"]}; "e2" := {["m2"; "m3"; "m9"]}]}.

(** X10.  Pruning changes no number.  The sums that [precompute_sums] returns
    for the pruned event dict are the row and column sums of the
    common-molecule counts of the unpruned one, and [compute_efs] returns
    the same on both dicts, whatever E and T it is given.  Pruning only
    decides whether the assertion of [precompute_sums] holds. *)
Theorem prune_events_changes_no_score (ev tg : setdict) (he : gset string) :
  let pruned_events := prune_events ev he (flatten_setdict tg) in
  (∀ E T,
     precompute_sums pruned_events tg = Ok (E, T) →
     (∀ event e_drugs, ev !! event = Some e_drugs →
        E !! event
        = Some (py_sum (λ item, common item.2 e_drugs) (map_to_list tg)))
     ∧ (∀ target t_drugs, tg !! target = Some t_drugs →
          T !! target
          = Some (py_sum (λ item, common t_drugs item.2) (map_to_list ev))))
  ∧ (∀ E T min_pairs ef_cutoff,
       compute_efs E T pruned_events tg min_pairs ef_cutoff
       = compute_efs E T ev tg min_pairs ef_cutoff).
Proof.
  simpl. split.
  - intros E T [-> ->]%precompute_sums_Ok.
    destruct (precompute_sums_prune_values ev tg he) as [-> ->]. split.
    + intros event e_drugs Hev. rewrite lookup_fmap, Hev. simpl.
      by rewrite sum_degree_common.
    + intros target t_drugs Htg. rewrite lookup_fmap, Htg. simpl.
      rewrite sum_degree_common. f_equal. apply py_sum_ext.
      intros [event e_drugs] _. apply common_comm.
  - intros E T min_pairs ef_cutoff. unfold compute_efs.
    by rewrite compute_efs_scan_prune.
Qed.

Lemma prune_events_changes_no_score_witness :
  precompute_sums ev_extra tg_fixture = Raise AssertionError
  ∧ precompute_sums (prune_events ev_extra ∅ (flatten_setdict tg_fixture))
                    tg_fixture
    = Ok ({["e1" := 3; "e2" := 3]}, {["t1" := 3; "t2" := 3]})
  ∧ ((∀ event e_drugs, ev_extra !! event = Some e_drugs →
        ({["e1" := 3; "e2" := 3]} : gmap string Z) !! event
        = Some (py_sum (λ item, common item.2 e_drugs) (map_to_list tg_fixture)))
     ∧ (∀ target t_drugs, tg_fixture !! target = Some t_drugs →
          ({["t1" := 3; "t2" := 3]} : gmap string Z) !! target
          = Some (py_sum (λ item, common t_drugs item.2) (map_to_list ev_extra)))).
Proof.
  assert (precompute_sums (prune_events ev_extra ∅ (flatten_setdict tg_fixture))
                          tg_fixture
          = Ok ({["e1" := 3; "e2" := 3]}, {["t1" := 3; "t2" := 3]})) as Hsums
    by (by vm_compute).
  split_and!; [by vm_compute|done|..];
    apply (proj1 (prune_events_changes_no_score ev_extra tg_fixture ∅) _ _ Hsums).
Defined.

(** ** The dicts of the pipeline *)

Lemma scan_no_warnings ev tg E T min_pairs st :
  precompute_sums ev tg = Ok (E, T) → pruned tg ev → no_empty_set tg →
  compute_efs_scan E T ev tg min_pairs = Ok st → scan_log st = [].
Proof.
  intros Hsums Hpr Hne Hst. apply elem_of_nil_inv. intros w Hw.
  apply (scan_log_spec _ _ _ _ _ _ _ Hst) in Hw
    as (event & target & e_drugs & t_drugs & ee & tt_
        & Hev & Htg & HEe & HTt & Hee & Hmin & Hz & _).
  assert (0 < tt_); [|nia].
  eapply precompute_sums_T_pos; [done..|]. by apply (Hne target).
Qed.

Definition events_rows_fixture : list (list string) :=
  [["m1"; "e1"]; ["m2"; "e1"]; ["m2"; "e2"]; ["m3"; "e2"];
   ["m9"; "e2"; "ignored"]].

Definition results_rows_fixture : list (list string) :=
  [["cid"; "smiles"; "tid"; "affinity"; "pvalue"; "maxtc"; "name"; "desc"];
   ["m1"; "C"; "t1"; "5"; "1e-9"; "0.5"; "T1"; "first"];
   ["m2"; "CC"; "t1"; "5"; "1e-9"; "0.5"; "T1 again"; "other"];
   ["m7"; "CCC"; "t3"; "5"; "1e-9"; "0.5"; "T3"; "no event"];
   ["m2"; "CC"; "t2"; "5"; "1e-9"; "0.5"; "T2"; "second"];
   ["m3"; "N"; "t2"; "5"; "1e-9"; "0.5"; "T2"; "second"]].

(** X11.  In [ef_analysis] the assertion of [precompute_sums] always holds and
    the error branch of [compute_efs] is never taken: after the two
    tables are read and the events pruned, the flipped dicts have the same
    keys, every T is positive, and the scan reports no pair, whatever the
    threshold. *)
Theorem pipeline_sums_consistent (events_reader results_reader : list (list string))
    (ev0 tg : setdict) (he ht : gset string)
    (targets : gmap string (string * string)) (min_pairs : Z) :
  read_events events_reader = Ok (ev0, he) →
  read_results results_reader he = Ok (tg, ht, targets) →
  let ev := prune_events ev0 he ht in
  dom (flip_setdict ev) = dom (flip_setdict tg)
  ∧ ∃ E T st,
      precompute_sums ev tg = Ok (E, T)
      ∧ (∀ target tt_, T !! target = Some tt_ → 0 < tt_)
      ∧ compute_efs_scan E T ev tg min_pairs = Ok st
      ∧ scan_log st = [].
Proof.
  intros Hev Hres. simpl.
  destruct (pipeline_maps _ _ _ _ _ _ _ Hev Hres)
    as (Hflat & Hpr & Hpr' & Hne & Hdom).
  set (ev := prune_events ev0 he ht) in *.
  split; [by rewrite !dom_flip_setdict|].
  assert (∃ E T, precompute_sums ev tg = Ok (E, T)) as (E & T & Hsums).
  { rewrite precompute_sums_unfold, !size_flip_setdict, Hflat.
    rewrite decide_True by done. by eexists _, _. }
  destruct (precompute_sums_keys _ _ _ _ Hsums) as [HE HT].
  destruct (scan_total E T ev tg min_pairs HE HT) as [st Hst].
  exists E, T, st. split_and!; [done| |done|by eapply scan_no_warnings].
  intros target tt_ HTt.
  assert (is_Some (tg !! target)) as [t_drugs Htg].
  { apply precompute_sums_Ok in Hsums as [_ ->].
    rewrite lookup_fmap in HTt. destruct (tg !! target); [by eexists|done]. }
  eapply precompute_sums_T_pos; [done..|]. by apply (Hne target).
Qed.

Lemma pipeline_sums_consistent_witness :
  read_events events_rows_fixture = Ok (ev_extra, {["m1"; "m2"; "m3"; "m9"]})
  ∧ read_results results_rows_fixture {["m1"; "m2"; "m3"; "m9"]}
    = Ok (tg_fixture, {["m1"; "m2"; "m3"]},
          {["t1" := ("T1", "first"); "t2" := ("T2", "second")]})
  ∧ let ev := prune_events ev_extra {["m1"; "m2"; "m3"; "m9"]}
                {["m1"; "m2"; "m3"]} in
    dom (flip_setdict ev) = dom (flip_setdict tg_fixture)
    ∧ ∃ E T st,
        precompute_sums ev tg_fixture = Ok (E, T)
        ∧ (∀ target tt_, T !! target = Some tt_ → 0 < tt_)
        ∧ compute_efs_scan E T ev tg_fixture 0 = Ok st
        ∧ scan_log st = [].
Proof.
  assert (read_events events_rows_fixture
          = Ok (ev_extra, {["m1"; "m2"; "m3"; "m9"]})) as Hev by (by vm_compute).
  assert (read_results results_rows_fixture {["m1"; "m2"; "m3"; "m9"]}
          = Ok (tg_fixture, {["m1"; "m2"; "m3"]},
                {["t1" := ("T1", "first"); "t2" := ("T2", "second")]})) as Hres
    by (by vm_compute).
  split_and!; [done|done|].
  exact (pipeline_sums_consistent events_rows_fixture results_rows_fixture
           _ _ _ _ _ 0 Hev Hres).
Defined.

(** ** The rows written *)

(** The intermediate values of a run of [ef_analysis] that returns. *)
Lemma ef_analysis_Ok (chi2 : table → result Q) (fmt : Q → string)
    events_reader results_reader min_pairs ef_cutoff qvalue_cutoff
    (bonferroni : bool) rows :
  ef_analysis chi2 fmt events_reader results_reader
              min_pairs ef_cutoff qvalue_cutoff bonferroni = Ok rows →
  ∃ ev0 he tg ht targets E T efs0 tables pairs ps qs,
    read_events events_reader = Ok (ev0, he)
    ∧ read_results results_reader he = Ok (tg, ht, targets)
    ∧ precompute_sums (prune_events ev0 he ht) tg = Ok (E, T)
    ∧ compute_efs E T (prune_events ev0 he ht) tg min_pairs ef_cutoff = Ok efs0
    ∧ map_contingency_tables
        (if bonferroni then filter (λ kv, ef_cutoff <= kv.2)%Q efs0 else efs0)
        (prune_events ev0 he ht) tg = Ok tables
    ∧ compute_q_values chi2 tables
        (if bonferroni then Some (Z.of_nat (size efs0)) else None)
      = Ok (pairs, ps, qs)
    ∧ report fmt
        (if bonferroni then filter (λ kv, ef_cutoff <= kv.2)%Q efs0 else efs0)
        targets ef_cutoff qvalue_cutoff pairs ps qs = Ok rows.
Proof.
  unfold ef_analysis.
  intros ([ev0 he] & Hev & Hrun)%bind_Ok.
  apply bind_Ok in Hrun as ([[tg ht] targets] & Hres & Hrun).
  apply bind_Ok in Hrun as ([E T] & Hsums & Hrun).
  apply bind_Ok in Hrun as (efs0 & Hefs & Hrun).
  exists ev0, he, tg, ht, targets, E, T, efs0.
  destruct bonferroni.
  - apply bind_Ok in Hrun as (tables & Htables & Hrun).
    apply bind_Ok in Hrun as ([[pairs ps] qs] & Hq & Hrun).
    case_decide; [|done]. by exists tables, pairs, ps, qs.
  - apply bind_Ok in Hrun as (tables & Htables & Hrun).
    apply bind_Ok in Hrun as ([[pairs ps] qs] & Hq & Hrun).
    case_decide; [|done]. by exists tables, pairs, ps, qs.
Qed.

Lemma compute_efs_lookup E T ev tg min_pairs ef_cutoff efs target event ef :
  compute_efs E T ev tg min_pairs ef_cutoff = Ok efs →
  efs !! (target, event) = Some ef →
  ∃ e_drugs t_drugs,
    ev !! event = Some e_drugs ∧ tg !! target = Some t_drugs
    ∧ min_pairs ≤ common t_drugs e_drugs.
Proof.
  unfold compute_efs. intros (st & Hst & [= <-])%bind_Ok.
  rewrite lookup_fmap, (scan_efs_lookup _ _ _ _ _ _ _ _ Hst).
  destruct (ef_raw _ _ _ _ _ _ _) as [raw|] eqn:Hraw; [|done]. intros _.
  apply ef_raw_Some in Hraw
    as (e_drugs & t_drugs & ee & tt_ & ? & ? & _ & _ & _ & ? & _).
  by exists e_drugs, t_drugs.
Qed.

Lemma target_info_Some he tid row info :
  target_info he tid row = Some info →
  length row = 8%nat ∧ row !! 2%nat = Some tid ∧ row !! 6%nat = Some info.1
  ∧ row !! 7%nat = Some info.2.
Proof.
  unfold target_info.
  destruct row as [|cid [|smiles [|tid' [|affinity [|pvalue [|maxtc [|name
    [|desc [|]]]]]]]]]; try done.
  case_decide as H; [|done]. destruct H as [_ ->]. by intros [= <-].
Qed.

(** X12.  Every data row that [ef_analysis] writes is backed by the two
    tables: it holds a target, the name given by one of the rows of that
    target, an event, and an EF above the cutoff with a q-value below its
    cutoff; and at least [min_pairs] molecules occur both in an event row
    of that event and in a result row of that target. *)
Theorem ef_analysis_rows_supported (chi2_contingency : table → result Q)
    (fmt5g : Q → string) (events_reader results_reader : list (list string))
    (min_pairs : Z) (ef_cutoff qvalue_cutoff : Q) (bonferroni : bool)
    (rows : list (list string)) :
  ef_analysis chi2_contingency fmt5g events_reader results_reader
              min_pairs ef_cutoff qvalue_cutoff bonferroni = Ok rows →
  head rows = Some header_row
  ∧ ∀ row, row ∈ tail rows →
      ∃ target name event ef p_val q_val (shared : gset string),
        row = [target; name; event; fmt5g ef; fmt5g p_val; fmt5g q_val]
        ∧ (ef_cutoff < ef)%Q ∧ (q_val < qvalue_cutoff)%Q
        ∧ min_pairs ≤ Z.of_nat (size shared)
        ∧ (∀ cid, cid ∈ shared →
             (∃ rest, (cid :: event :: rest) ∈ events_reader)
             ∧ (∃ r, r ∈ tail results_reader ∧ length r = 8%nat
                     ∧ r !! 0%nat = Some cid ∧ r !! 2%nat = Some target))
        ∧ (∃ r, r ∈ tail results_reader ∧ length r = 8%nat
                ∧ r !! 2%nat = Some target ∧ r !! 6%nat = Some name).
Proof.
  intros (ev0 & he & tg & ht & targets & E & T & efs0 & tables & pairs & ps
          & qs & Hev & Hres & Hsums & Hefs & Htables & Hq & Hrep)%ef_analysis_Ok.
  unfold report in Hrep.
  destruct (report_loop_inv _ _ _ _ _ _ _ Hrep) as (data & -> & Hdata).
  split; [done|]. simpl. intros row Hrow.
  apply Hdata in Hrow
    as ([[[target event] p_val] q_val] & ef & info & _ & Hef & Hinfo
        & [Hpass1 Hpass2] & ->). simpl in *.
  assert (efs0 !! (target, event) = Some ef) as Hef0.
  { destruct bonferroni; [|done]. by apply map_lookup_filter_Some in Hef as [? _]. }
  destruct (compute_efs_lookup _ _ _ _ _ _ _ _ _ _ Hefs Hef0)
    as (e_drugs & t_drugs & Hed & Htd & Hmin).
  apply read_events_Ok in Hev as [Hevloop ->].
  apply read_events_loop in Hevloop as [Hevel _].
  apply read_results_Ok in Hres as (header & rrows & -> & Hresloop & ->).
  apply read_results_loop in Hresloop as (Hresel & Hresinfo & _ & _).
  simpl in *.
  rewrite prune_events_lookup in Hed.
  destruct (ev0 !! event) as [e_drugs0|] eqn:Hed0; [|done].
  injection Hed as <-.
  exists target, info.1, event, ef, p_val, q_val, (t_drugs ∩ e_drugs0).
  split_and!; try done.
  - unfold common in Hmin.
    replace (t_drugs ∩ e_drugs0)
      with (t_drugs ∩ (e_drugs0 ∩ flatten_setdict tg)); [done|].
    apply set_eq. intros x. split; [set_solver|].
    intros [Ht He]%elem_of_intersection.
    repeat (apply elem_of_intersection; split); try done.
    apply elem_of_flatten_setdict. eauto.
  - intros cid [Ht He]%elem_of_intersection. split.
    + apply Hevel. by rewrite Hed0.
    + assert (cid ∈ default ∅ (tg !! target)) as Hin by by rewrite Htd.
      apply Hresel in Hin as (_ & r & ? & ? & ? & ?). by exists r.
  - rewrite Hresinfo in Hinfo.
    apply head_Some_elem_of, list_elem_of_omap in Hinfo as (r & Hr & Hinfo).
    apply target_info_Some in Hinfo as (? & ? & ? & _). by exists r.
Qed.

Lemma ef_analysis_rows_supported_witness :
  ef_analysis chi2_sample fmt_sample events_rows_fixture results_rows_fixture
              1 1 1 false = Ok rows_fixture
  ∧ head rows_fixture = Some header_row
  ∧ ∀ row, row ∈ tail rows_fixture →
      ∃ target name event ef p_val q_val (shared : gset string),
        row = [target; name; event; fmt_sample ef; fmt_sample p_val;
               fmt_sample q_val]
        ∧ (1 < ef)%Q ∧ (q_val < 1)%Q
        ∧ 1 ≤ Z.of_nat (size shared)
        ∧ (∀ cid, cid ∈ shared →
             (∃ rest, (cid :: event :: rest) ∈ events_rows_fixture)
             ∧ (∃ r, r ∈ tail results_rows_fixture ∧ length r = 8%nat
                     ∧ r !! 0%nat = Some cid ∧ r !! 2%nat = Some target))
        ∧ (∃ r, r ∈ tail results_rows_fixture ∧ length r = 8%nat
                ∧ r !! 2%nat = Some target ∧ r !! 6%nat = Some name).
Proof.
  assert (ef_analysis chi2_sample fmt_sample events_rows_fixture
            results_rows_fixture 1 1 1 false = Ok rows_fixture) as Hrun
    by (by vm_compute).
  split; [done|].
  exact (ef_analysis_rows_supported chi2_sample fmt_sample events_rows_fixture
           results_rows_fixture 1 1 1 false rows_fixture Hrun).
Defined.

(** X13.  In Bonferroni mode the q-value of every row written is its p-value
    times the number of pairs that [compute_efs] stored, counted before
    the pairs below the EF cutoff are dropped from testing. *)
Theorem ef_analysis_bonferroni_count (chi2_contingency : table → result Q)
    (fmt5g : Q → string) (events_reader results_reader : list (list string))
    (min_pairs : Z) (ef_cutoff qvalue_cutoff : Q) (rows : list (list string)) :
  ef_analysis chi2_contingency fmt5g events_reader results_reader
              min_pairs ef_cutoff qvalue_cutoff true = Ok rows →
  ∃ ev0 he tg ht targets E T efs0,
    read_events events_reader = Ok (ev0, he)
    ∧ read_results results_reader he = Ok (tg, ht, targets)
    ∧ precompute_sums (prune_events ev0 he ht) tg = Ok (E, T)
    ∧ compute_efs E T (prune_events ev0 he ht) tg min_pairs ef_cutoff = Ok efs0
    ∧ ∀ row, row ∈ tail rows →
        ∃ target name event ef p_val,
          efs0 !! (target, event) = Some ef
          ∧ row = [target; name; event; fmt5g ef; fmt5g p_val;
                   fmt5g (p_val * inject_Z (Z.of_nat (size efs0)))%Q].
Proof.
  intros (ev0 & he & tg & ht & targets & E & T & efs0 & tables & pairs & ps
          & qs & Hev & Hres & Hsums & Hefs & Htables & Hq & Hrep)%ef_analysis_Ok.
  exists ev0, he, tg, ht, targets, E, T, efs0. split_and!; try done.
  unfold report in Hrep.
  destruct (report_loop_inv _ _ _ _ _ _ _ Hrep) as (data & -> & Hdata).
  simpl. intros row Hrow.
  apply Hdata in Hrow
    as ([[[target event] p_val] q_val] & ef & info & Hin & Hef & Hinfo & _ & ->).
  simpl in *. apply map_lookup_filter_Some in Hef as [Hef _].
  exists target, info.1, event, ef, p_val. split; [done|].
  assert (size efs0 ≠ 0%nat) as Hsize.
  { intros Hz. apply map_size_empty_inv in Hz. subst efs0.
    by rewrite lookup_empty in Hef. }
  apply compute_q_values_Ok in Hq as (_ & _ & Hqs). simpl in Hqs.
  rewrite bool_decide_eq_true_2 in Hqs by lia. subst qs.
  apply list_elem_of_lookup in Hin as [i Hi].
  apply lookup_zip_with_Some in Hi as (x & q' & [= <- <-] & Hi & Hqi).
  apply lookup_zip_with_Some in Hi as (key & p' & [= <- <-] & _ & Hpi).
  rewrite list_lookup_fmap, Hpi in Hqi. by injection Hqi as <-.
Qed.

Lemma ef_analysis_bonferroni_count_witness :
  ef_analysis chi2_sample fmt_sample events_rows_fixture results_rows_fixture
              1 1 1 true = Ok rows_fixture
  ∧ ∃ ev0 he tg ht targets E T efs0,
      read_events events_rows_fixture = Ok (ev0, he)
      ∧ read_results results_rows_fixture he = Ok (tg, ht, targets)
      ∧ precompute_sums (prune_events ev0 he ht) tg = Ok (E, T)
      ∧ compute_efs E T (prune_events ev0 he ht) tg 1 1 = Ok efs0
      ∧ ∀ row, row ∈ tail rows_fixture →
          ∃ target name event ef p_val,
            efs0 !! (target, event) = Some ef
            ∧ row = [target; name; event; fmt_sample ef; fmt_sample p_val;
                     fmt_sample (p_val * inject_Z (Z.of_nat (size efs0)))%Q].
Proof.
  assert (ef_analysis chi2_sample fmt_sample events_rows_fixture
            results_rows_fixture 1 1 1 true = Ok rows_fixture) as Hrun
    by (by vm_compute).
  split; [done|].
  exact (ef_analysis_bonferroni_count chi2_sample fmt_sample
           events_rows_fixture results_rows_fixture 1 1 1 rows_fixture Hrun).
Defined.

(** ** Missing keys *)

Lemma getitem_Raise `{Countable K} {V} (d : gmap K V) k e :
  getitem d k = Raise e ↔ e = KeyError ∧ d !! k = None.
Proof. unfold getitem. destruct (d !! k); split; naive_solver. Qed.

Lemma compute_efs_target_Raise T min_pairs event e_drugs ee target t_drugs st e :
  compute_efs_target T min_pairs event e_drugs ee (target, t_drugs) st = Raise e →
  e = KeyError ∧ T !! target = None.
Proof.
  unfold compute_efs_target.
  intros [H|(tt_ & _ & H)]%bind_Raise; [by apply getitem_Raise|].
  case_decide; [done|]. by destruct (true_div _ _).
Qed.

(** X14.  [compute_efs] raises only [KeyError].  It returns exactly when every
    event has an entry in E and, if some event has a non-zero E, every
    target has an entry in T; an event with E = 0 is skipped before T is
    read. *)
Theorem compute_efs_raises_on_missing_key (E T : gmap string Z) (ev tg : setdict)
    (min_pairs : Z) (ef_cutoff : Q) :
  (∀ e, compute_efs E T ev tg min_pairs ef_cutoff = Raise e → e = KeyError)
  ∧ ((∃ efs, compute_efs E T ev tg min_pairs ef_cutoff = Ok efs)
     ↔ ∀ event, is_Some (ev !! event) →
         ∃ ee, E !! event = Some ee
           ∧ (ee ≠ 0 → ∀ target, is_Some (tg !! target) → is_Some (T !! target))).
Proof.
  unfold compute_efs, compute_efs_scan. split.
  - intros e [Hrun|(st & _ & [=])]%bind_Raise.
    apply for_each_Raise in Hrun as ([event e_drugs] & st & _ & Hbody).
    unfold compute_efs_event in Hbody.
    apply bind_Raise in Hbody as [Hbody|(ee & _ & Hbody)];
      [by apply getitem_Raise in Hbody as [-> _]|].
    case_decide; [done|].
    apply for_each_Raise in Hbody as ([target t_drugs] & st' & _ & Hbody).
    by apply compute_efs_target_Raise in Hbody as [-> _].
  - split.
    + intros (efs & (st & Hrun & _)%bind_Ok) event [e_drugs Hev].
      apply elem_of_map_to_list in Hev.
      destruct (for_each_Ok_body _ _ _ _ _ Hrun Hev) as (s1 & s2 & Hbody).
      apply compute_efs_event_Ok in Hbody as (ee & HE & [[-> _]|[Hee Hinner]]).
      * exists 0. split; [done|]. by intros [].
      * exists ee. split; [done|]. intros _ target [t_drugs Htg].
        apply elem_of_map_to_list in Htg.
        destruct (for_each_Ok_body _ _ _ _ _ Hinner Htg) as (s3 & s4 & Hbody).
        apply compute_efs_target_Ok in Hbody as (tt_ & HT & _). by eexists.
    + intros Hkeys.
      destruct (for_each_total (compute_efs_event E T tg min_pairs)
                  (map_to_list ev) (mk_scan ∅ 0 [])) as [st Hst].
      * intros [event e_drugs] st Hin%elem_of_map_to_list.
        destruct (Hkeys event) as (ee & HE & HT); [by eexists|].
        unfold compute_efs_event, getitem. rewrite HE. simpl.
        case_decide; [by eexists|]. apply for_each_total.
        intros [target t_drugs] st' Hin'%elem_of_map_to_list.
        apply compute_efs_target_total, HT; [done|by eexists].
      * rewrite Hst. simpl. by eexists.
Qed.

(** X15.  [map_contingency_tables] raises only [KeyError], and exactly when
    the event of some key of the EF dict is missing from the event dict;
    otherwise it returns one table for each key of the EF dict and no
    other. *)
Theorem map_contingency_tables_keys (efs : gmap (string * string) Q)
    (ev tg : setdict) :
  match map_contingency_tables efs ev tg with
  | Ok tables =>
      dom tables = dom efs
      ∧ ∀ target event, is_Some (efs !! (target, event)) → is_Some (ev !! event)
  | Raise e =>
      e = KeyError
      ∧ ∃ target event, is_Some (efs !! (target, event)) ∧ ev !! event = None
  end.
Proof.
  destruct (map_contingency_tables efs ev tg) as [tables|e] eqn:Hrun.
  - split; [by eapply map_contingency_tables_dom|].
    intros target event Hkey.
    destruct (map_contingency_tables_lookup _ _ _ _ Hrun (target, event))
      as [Hin _].
    destruct (Hin Hkey) as (tbl & (e_drugs & He & _)%contingency_table_Ok & _).
    by eexists.
  - unfold map_contingency_tables in Hrun.
    apply for_each_Raise in Hrun as ([target event] & tables & Hin & Hbody).
    apply bind_Raise in Hbody as [Hbody|(tbl & _ & [=])].
    unfold contingency_table in Hbody.
    apply bind_Raise in Hbody as [Hbody|(e_drugs & _ & [=])].
    apply getitem_Raise in Hbody as [-> Hev]. split; [done|].
    exists target, event. split; [|done].
    apply list_elem_of_fmap in Hin as ([k ef] & -> & Hin%elem_of_map_to_list).
    by eexists.
Qed.

(** ** The lists of [compute_q_values] and the order of the report *)

(** X16.  [compute_q_values] raises only what the chi-squared test raises.
    When it returns, the lists are aligned: the pairs are the keys of the
    tables, each once; there are as many p-values as pairs, and as many
    q-values on the Bonferroni branch; and each p-value is that of the
    table of its pair. *)
Theorem compute_q_values_aligned (chi2_contingency : table → result Q)
    (contingencies : gmap (string * string) table)
    (bonferroni_count : option Z) :
  match compute_q_values chi2_contingency contingencies bonferroni_count with
  | Ok (target_event_pairs, p_vals, q_vals) =>
      NoDup target_event_pairs
      ∧ (∀ key, key ∈ target_event_pairs ↔ is_Some (contingencies !! key))
      ∧ length p_vals = length target_event_pairs
      ∧ (truthy bonferroni_count = true →
         length q_vals = length target_event_pairs)
      ∧ ∀ i key p_val,
          target_event_pairs !! i = Some key → p_vals !! i = Some p_val →
          ∃ tbl, contingencies !! key = Some tbl
                 ∧ chi2_contingency tbl = Ok p_val
  | Raise e =>
      ∃ key tbl, contingencies !! key = Some tbl
                 ∧ chi2_contingency tbl = Raise e
  end.
Proof.
  destruct (compute_q_values _ _ _) as [[[pairs ps] qs]|e] eqn:Hq;
    [|by eapply compute_q_values_Raise].
  apply compute_q_values_Ok in Hq as (-> & Hps & ->).
  pose proof (Forall2_length _ _ _ Hps) as Hlen.
  split_and!.
  - apply NoDup_fst_map_to_list.
  - intros key. rewrite list_elem_of_fmap. split.
    + intros ([k tbl] & -> & Hin%elem_of_map_to_list). by eexists.
    + intros [tbl Hkey]. exists (key, tbl). by rewrite elem_of_map_to_list.
  - by rewrite length_fmap.
  - intros ->. by rewrite !length_fmap, Hlen.
  - intros i key p_val Hi Hp.
    apply list_lookup_fmap_Some in Hi as ([k tbl] & -> & Hi).
    exists tbl. split; [by eapply elem_of_map_to_list, list_elem_of_lookup_2|].
    by apply (Forall2_lookup_lr _ _ _ _ _ _ Hps Hi Hp).
Qed.

Lemma length_omap_le {A B} (f : A → option B) (l : list A) :
  (length (omap f l) ≤ length l)%nat.
Proof.
  induction l as [|a l IH]; [done|]. csimpl. destruct (f a); simpl; lia.
Qed.

(** The data row of an item, when the item passes both cutoffs. *)
Definition report_line (fmt5g : Q → string) (efs : gmap (string * string) Q)
    (targets : gmap string (string * string)) (ef_cutoff qvalue_cutoff : Q)
    (item : string * string * Q * Q) : option (list string) :=
  ef ← efs !! item.1.1;
  if decide (ef_cutoff < ef ∧ item.2 < qvalue_cutoff)%Q
  then info ← targets !! item.1.1.1; Some (data_row fmt5g info.1 item ef)
  else None.

(** X17.  The report keeps the order of the pairs: the rows after the header
    are the rows of the passing items, in the order of the zipped lists,
    one row for each; so there are never more data rows than pairs. *)
Theorem report_keeps_order (fmt5g : Q → string)
    (efs : gmap (string * string) Q) (targets : gmap string (string * string))
    (ef_cutoff qvalue_cutoff : Q) (target_event_pairs : list (string * string))
    (p_vals q_vals : list Q) (rows : list (list string)) :
  report fmt5g efs targets ef_cutoff qvalue_cutoff
         target_event_pairs p_vals q_vals = Ok rows →
  rows = header_row
         :: omap (report_line fmt5g efs targets ef_cutoff qvalue_cutoff)
                 (zip (zip target_event_pairs p_vals) q_vals)
  ∧ (length rows ≤ S (length target_event_pairs))%nat.
Proof.
  unfold report. intros Hrun.
  assert (rows = header_row
            :: omap (report_line fmt5g efs targets ef_cutoff qvalue_cutoff)
                    (zip (zip target_event_pairs p_vals) q_vals)) as ->.
  { revert Hrun.
    apply (for_each_inv (λ done out,
      out = header_row
            :: omap (report_line fmt5g efs targets ef_cutoff qvalue_cutoff) done));
      [done|].
    intros done item s1 s2 _ -> Hstep. rewrite omap_app. simpl.
    apply report_row_Ok in Hstep
      as (ef & Hef & [(Hpass & info & Hinfo & ->)|(Hfail & ->)]);
      unfold report_line; rewrite Hef; simpl.
    - rewrite decide_True by done. by rewrite Hinfo.
    - rewrite decide_False by done. by rewrite app_nil_r. }
  split; [done|]. simpl. apply le_n_S.
  etrans; [apply length_omap_le|]. rewrite !length_zip. lia.
Qed.

Lemma report_keeps_order_witness :
  report fmt_sample efs_all_fixture targets_fixture 1 1 pairs_fixture
         [1 # 5; 1 # 4; 1 # 4; 1 # 5] [4 # 5; 4 # 5; 4 # 5; 4 # 5]
  = Ok rows_fixture
  ∧ rows_fixture
    = header_row
      :: omap (report_line fmt_sample efs_all_fixture targets_fixture 1 1)
              (zip (zip pairs_fixture [1 # 5; 1 # 4; 1 # 4; 1 # 5])
                   [4 # 5; 4 # 5; 4 # 5; 4 # 5])
  ∧ (length rows_fixture ≤ S (length pairs_fixture))%nat.
Proof.
  assert (report fmt_sample efs_all_fixture targets_fixture 1 1 pairs_fixture
            [1 # 5; 1 # 4; 1 # 4; 1 # 5] [4 # 5; 4 # 5; 4 # 5; 4 # 5]
          = Ok rows_fixture) as Hrun by (by vm_compute).
  split; [done|].
  exact (report_keeps_order fmt_sample efs_all_fixture targets_fixture 1 1
           pairs_fixture _ _ rows_fixture Hrun).
Defined.

(** ** The range of the stored factors *)

Lemma event_triplets_nonneg (tg : setdict) e_drugs : 0 ≤ event_triplets tg e_drugs.
Proof. apply py_sum_nonneg. intros ? _. apply common_nonneg. Qed.

Lemma event_triplets_le_all (ev tg : setdict) event e_drugs :
  ev !! event = Some e_drugs → event_triplets tg e_drugs ≤ all_triplets ev tg.
Proof.
  intros Hev. unfold all_triplets.
  apply (py_sum_elem_le (λ item : string * gset string, event_triplets tg item.2)
           _ (event, e_drugs)).
  - intros ? _. apply event_triplets_nonneg.
  - by apply elem_of_map_to_list.
Qed.

Lemma Qratio_scaled_bounds (a d P : Z) :
  1 ≤ a → a ≤ d → 1 ≤ P →
  (0 < inject_Z a / inject_Z d * inject_Z P
   ∧ inject_Z a / inject_Z d * inject_Z P <= inject_Z P)%Q.
Proof.
  intros Ha Hd HP.
  assert (0 < inject_Z a)%Q as Ha' by (change 0%Q with (inject_Z 0);
    rewrite <- Zlt_Qlt; lia).
  assert (inject_Z a <= inject_Z d)%Q as Hd' by (rewrite <- Zle_Qle; lia).
  assert (0 < inject_Z d)%Q as Hd0 by lra.
  assert (0 < inject_Z P)%Q as HP' by (change 0%Q with (inject_Z 0);
    rewrite <- Zlt_Qlt; lia).
  assert (0 < inject_Z a / inject_Z d)%Q as Hlo
    by (apply Qlt_shift_div_l; [done|lra]).
  assert (inject_Z a / inject_Z d <= 1)%Q as Hhi
    by (apply Qle_shift_div_r; [done|lra]).
  split; nra.
Qed.

(** X18.  With the marginal sums and a threshold of at least 1, every factor
    returned by [compute_efs] is positive and at most P, the number of all
    triplets. *)
Theorem compute_efs_values_bounded (ev tg : setdict) (E T : gmap string Z)
    (min_pairs : Z) (ef_cutoff : Q) (efs : gmap (string * string) Q)
    (target event : string) (v : Q) :
  precompute_sums ev tg = Ok (E, T) → 1 ≤ min_pairs →
  compute_efs E T ev tg min_pairs ef_cutoff = Ok efs →
  efs !! (target, event) = Some v →
  (0 < v)%Q ∧ (v <= inject_Z (all_triplets ev tg))%Q.
Proof.
  intros Hsums Hone. unfold compute_efs. intros (st & Hst & [= <-])%bind_Ok.
  rewrite lookup_fmap, (scan_efs_lookup _ _ _ _ _ _ _ _ Hst).
  destruct (ef_raw _ _ _ _ _ _ _) as [raw|] eqn:Hraw; [|done]. intros [= <-].
  apply ef_raw_Some in Hraw
    as (e_drugs & t_drugs & ee & tt_ & Hev & Htg & HE & HT & _ & Hmin & _ & ->).
  rewrite (scan_P_all_triplets _ _ _ _ _ _ Hsums Hst).
  rewrite (precompute_sums_E_triplets _ _ _ _ _ _ Hsums Hev) in HE.
  rewrite (precompute_sums_T_triplets _ _ _ _ _ _ Hsums Htg) in HT.
  injection HE as <-. injection HT as <-.
  pose proof (common_le_event_triplets tg target t_drugs e_drugs Htg).
  pose proof (common_le_target_triplets ev event t_drugs e_drugs Hev).
  pose proof (event_triplets_le_all ev tg event e_drugs Hev).
  apply Qratio_scaled_bounds; [lia|nia|lia].
Qed.

Lemma compute_efs_values_bounded_witness :
  precompute_sums ev_fixture tg_fixture = Ok (E_fixture, T_fixture)
  ∧ 1 ≤ 2
  ∧ compute_efs E_fixture T_fixture ev_fixture tg_fixture 2 3 = Ok efs_fixture
  ∧ efs_fixture !! ("t1", "e1") = Some (12 # 9)
  ∧ (0 < 12 # 9)%Q
  ∧ (12 # 9 <= inject_Z (all_triplets ev_fixture tg_fixture))%Q.
Proof.
  assert (precompute_sums ev_fixture tg_fixture = Ok (E_fixture, T_fixture))
    as Hsums by (by vm_compute).
  assert (1 ≤ 2) as Hone by lia.
  assert (compute_efs E_fixture T_fixture ev_fixture tg_fixture 2 3
          = Ok efs_fixture) as Hrun by (by vm_compute).
  assert (efs_fixture !! ("t1", "e1") = Some (12 # 9)) as Hkey
    by (by vm_compute).
  split_and!; [done|done|done|done|..];
    apply (compute_efs_values_bounded ev_fixture tg_fixture E_fixture T_fixture
             2 3 efs_fixture "t1" "e1" (12 # 9) Hsums Hone Hrun Hkey).
Defined.

(** X19.  [ef_analysis] raises neither [KeyError] nor [AssertionError] of its
    own, whatever the two tables hold: every lookup of its stages finds
    its key, and the assertion of [precompute_sums] and the one on the
    number of pairs always hold.  Such an exception can only come out of
    the chi-squared test. *)
Theorem ef_analysis_lookups_never_fail (chi2_contingency : table → result Q)
    (fmt5g : Q → string) (events_reader results_reader : list (list string))
    (min_pairs : Z) (ef_cutoff qvalue_cutoff : Q) (bonferroni : bool) :
  (∀ tbl e, chi2_contingency tbl = Raise e →
     e ≠ KeyError ∧ e ≠ AssertionError) →
  ef_analysis chi2_contingency fmt5g events_reader results_reader
              min_pairs ef_cutoff qvalue_cutoff bonferroni ≠ Raise KeyError
  ∧ ef_analysis chi2_contingency fmt5g events_reader results_reader
                min_pairs ef_cutoff qvalue_cutoff bonferroni
    ≠ Raise AssertionError.
Proof.
  intros Hchi.
  pose proof (ef_analysis_outcomes chi2_contingency fmt5g events_reader
                results_reader min_pairs ef_cutoff qvalue_cutoff bonferroni)
    as Hout.
  split; intros Heq; rewrite Heq in Hout;
    destruct Hout as [[? _]|[[? _]|[[? _]|[tbl Htbl]]]]; try done;
    destruct (Hchi tbl _ Htbl); done.
Qed.

Lemma ef_analysis_lookups_never_fail_witness :
  (∀ tbl e, chi2_sample tbl = Raise e → e ≠ KeyError ∧ e ≠ AssertionError)
  ∧ ef_analysis chi2_sample fmt_sample events_rows_fixture
      results_rows_fixture 1 1 1 false ≠ Raise KeyError
  ∧ ef_analysis chi2_sample fmt_sample events_rows_fixture
      results_rows_fixture 1 1 1 false ≠ Raise AssertionError.
Proof.
  assert (∀ tbl e, chi2_sample tbl = Raise e
                   → e ≠ KeyError ∧ e ≠ AssertionError) as Hchi
    by (intros tbl e; unfold chi2_sample; done).
  split; [done|].
  exact (ef_analysis_lookups_never_fail chi2_sample fmt_sample
           events_rows_fixture results_rows_fixture 1 1 1 false Hchi).
Defined.
